(** * LC-3 simulator ([src/lc3/sim.c]): machine model and verified properties

    The simulator keeps its whole state in two global arrays, [memory] and
    [registers], and talks to the terminal through [getchar], [putc] and a
    non-blocking readiness poll.  The embedding below threads that state
    explicitly: a [machine] record holds the two arrays and the console, every
    handler of the C file is a function on [machine], and an access outside
    the bounds of [memory] (undefined behaviour in C) is the [None] of the
    option monad. *)

From Stdlib Require Import ZArith Lia Bool List String Ascii.
From stdpp Require Import base option list.

Local Open Scope Z_scope.

(** ** Enumerations and constants *)

Definition R_R0 : Z := 0.
Definition R_R1 : Z := 1.
Definition R_R2 : Z := 2.
Definition R_R3 : Z := 3.
Definition R_R4 : Z := 4.
Definition R_R5 : Z := 5.
Definition R_R6 : Z := 6.
Definition R_R7 : Z := 7.
Definition R_PC : Z := 8.
Definition R_COND : Z := 9.
Definition R_COUNT : Z := 10.

Definition FL_POS : Z := Z.shiftl 1 0.
Definition FL_ZRO : Z := Z.shiftl 1 1.
Definition FL_NEG : Z := Z.shiftl 1 2.

Definition OP_BR : Z := 0.
Definition OP_ADD : Z := 1.
Definition OP_LD : Z := 2.
Definition OP_ST : Z := 3.
Definition OP_JSR : Z := 4.
Definition OP_AND : Z := 5.
Definition OP_LDR : Z := 6.
Definition OP_STR : Z := 7.
Definition OP_RTI : Z := 8.
Definition OP_NOT : Z := 9.
Definition OP_LDI : Z := 10.
Definition OP_STI : Z := 11.
Definition OP_JMP : Z := 12.
Definition OP_RES : Z := 13.
Definition OP_LEA : Z := 14.
Definition OP_TRAP : Z := 15.

Definition MR_KBSR : Z := 0xfe00.
Definition MR_KBDR : Z := 0xfe02.

Definition TRAP_GETC : Z := 0x20.
Definition TRAP_OUT : Z := 0x21.
Definition TRAP_PUTS : Z := 0x22.
Definition TRAP_IN : Z := 0x23.
Definition TRAP_PUTSP : Z := 0x24.
Definition TRAP_HALT : Z := 0x25.

Definition UINT16_MAX : Z := 65535.
(** [#define MEMORY_MAX UINT16_MAX]: the number of elements of [memory]. *)
Definition MEMORY_MAX : Z := UINT16_MAX.
Definition PC_START : Z := 0x3000.
(** The value [getchar] returns at end of input. *)
Definition EOF : Z := -1.

(** A C condition: any nonzero value counts as true. *)
Definition truthy (x : Z) : bool := negb (x =? 0).

(** Conversion of an [int] to [uint16_t]. *)
Definition u16 (x : Z) : Z := x mod 65536.

(** Conversion of an [int] to [char]; [char] is signed on the targets the
    file supports. *)
Definition to_char (x : Z) : Z := (x + 128) mod 256 - 128.

(** ** Machine state *)

(** The terminal: [polls] are the answers the successive readiness polls
    will get, [input] the characters still to be read, [output] what has been
    written so far. *)
Record console := Console {
  polls : list bool;
  input : list Z;
  output : list Z
}.

Record machine := Machine {
  memory : list Z;
  registers : list Z;
  io : console
}.

Definition with_memory (m : list Z) (s : machine) : machine :=
  Machine m (registers s) (io s).
Definition with_registers (r : list Z) (s : machine) : machine :=
  Machine (memory s) r (io s).
Definition with_io (c : console) (s : machine) : machine :=
  Machine (memory s) (registers s) c.

(** [registers[r]] and [registers[r] = v]. *)
Definition reg (s : machine) (r : Z) : Z := registers s !!! Z.to_nat r.
Definition set_reg (r v : Z) (s : machine) : machine :=
  with_registers (<[Z.to_nat r := v]> (registers s)) s.

(** [memory[a]] and [memory[a] = v], for an index [a] of type [uint16_t]:
    defined below [MEMORY_MAX], the size of the array, only. *)
Definition load (a : Z) (s : machine) : option Z :=
  if a <? MEMORY_MAX then memory s !! Z.to_nat a else None.
Definition store (a v : Z) (s : machine) : option machine :=
  if a <? MEMORY_MAX then Some (with_memory (<[Z.to_nat a := v]> (memory s)) s)
  else None.

(** The state invariant the C types give: both arrays have their declared
    size and hold 16-bit words. *)
Definition word (x : Z) : Prop := 0 <= x < 65536.
Definition wordb (x : Z) : bool := (0 <=? x) && (x <? 65536).
Definition wf_machine (s : machine) : bool :=
  (Z.of_nat (length (memory s)) =? MEMORY_MAX)
  && forallb wordb (memory s)
  && (Z.of_nat (length (registers s)) =? R_COUNT)
  && forallb wordb (registers s).

(** ** Console collaborators *)

Definition check_key (s : machine) : bool * machine :=
  match polls (io s) with
  | [] => (false, s)
  | b :: ps => (b, with_io (Console ps (input (io s)) (output (io s))) s)
  end.

Definition getchar (s : machine) : Z * machine :=
  match input (io s) with
  | [] => (EOF, s)
  | c :: cs => (c, with_io (Console (polls (io s)) cs (output (io s))) s)
  end.

(** [putc(c, stdout)] writes [c] converted to [unsigned char]. *)
Definition putc (c : Z) (s : machine) : machine :=
  with_io (Console (polls (io s)) (input (io s)) (output (io s) ++ [c mod 256])) s.

Definition bytes_of_string (t : string) : list Z :=
  map (fun a => Z.of_N (N_of_ascii a)) (list_ascii_of_string t).

Definition print (t : string) (s : machine) : machine :=
  with_io (Console (polls (io s)) (input (io s))
             (output (io s) ++ bytes_of_string t)) s.

(** ** Helpers *)

(** [0xFFFF << bit_count] is a shift of an [int]: it is defined for
    [bit_count] up to 15, which covers the widths the handlers pass (5, 6, 9
    and 11). *)
Definition sign_extend (x bit_count : Z) : Z :=
  if truthy (Z.land (Z.shiftr x (bit_count - 1)) 1)
  then u16 (Z.lor x (Z.shiftl 0xFFFF bit_count))
  else x.

Definition update_flags (r : Z) (s : machine) : machine :=
  if reg s r =? 0 then set_reg R_COND FL_ZRO s
  else if truthy (Z.shiftr (reg s r) 15) then set_reg R_COND FL_NEG s
  else set_reg R_COND FL_POS s.

(** ** Memory *)

Definition mem_write (address val : Z) (s : machine) : option machine :=
  store address val s.

Definition mem_read (address : Z) (s : machine) : option (Z * machine) :=
  s' ← (if address =? MR_KBSR then
          let '(ready, s1) := check_key s in
          if ready then
            s2 ← store MR_KBSR (Z.shiftl 1 15) s1;
            let '(c, s3) := getchar s2 in
            store MR_KBDR (u16 c) s3
          else store MR_KBSR 0 s1
        else Some s);
  v ← load address s';
  Some (v, s').

(** ** Instruction handlers *)

Definition cmd_add (instr : Z) (s : machine) : machine :=
  let dr := Z.land (Z.shiftr instr 9) 0x7 in
  let sr1 := Z.land (Z.shiftr instr 6) 0x7 in
  let imm_flag := Z.land (Z.shiftr instr 5) 0x1 in
  let s :=
    if truthy imm_flag then
      let imm5 := sign_extend (Z.land instr 0x1f) 5 in
      set_reg dr (u16 (reg s sr1 + imm5)) s
    else
      let sr2 := Z.land instr 0x7 in
      set_reg dr (u16 (reg s sr1 + reg s sr2)) s in
  update_flags dr s.

Definition cmd_and (instr : Z) (s : machine) : machine :=
  let dr := Z.land (Z.shiftr instr 9) 0x7 in
  let sr1 := Z.land (Z.shiftr instr 6) 0x7 in
  let imm_flag := Z.land (Z.shiftr instr 5) 0x1 in
  let s :=
    if truthy imm_flag then
      let imm5 := sign_extend (Z.land instr 0x1f) 5 in
      set_reg dr (u16 (Z.land (reg s sr1) imm5)) s
    else
      let sr2 := Z.land instr 0x7 in
      set_reg dr (u16 (Z.land (reg s sr1) (reg s sr2))) s in
  update_flags dr s.

Definition cmd_not (instr : Z) (s : machine) : machine :=
  let dr := Z.land (Z.shiftr instr 9) 0x7 in
  let sr := Z.land (Z.shiftr instr 6) 0x7 in
  update_flags dr (set_reg dr (u16 (Z.lnot (reg s sr))) s).

Definition cmd_br (instr : Z) (s : machine) : machine :=
  let pc_offset := sign_extend (Z.land instr 0x1ff) 9 in
  let cond_flag := Z.land (Z.shiftr instr 9) 0x7 in
  if truthy (Z.land cond_flag (reg s R_COND))
  then set_reg R_PC (u16 (reg s R_PC + pc_offset)) s
  else s.

Definition cmd_jmp (instr : Z) (s : machine) : machine :=
  let sr1 := Z.land (Z.shiftr instr 6) 0x7 in
  set_reg R_PC (reg s sr1) s.

Definition cmd_jsr (instr : Z) (s : machine) : machine :=
  let long_flag := Z.land (Z.shiftr instr 11) 1 in
  let s := set_reg R_R7 (reg s R_PC) s in
  if truthy long_flag then
    let long_pc_offset := sign_extend (Z.land instr 0x7ff) 11 in
    set_reg R_PC (u16 (reg s R_PC + long_pc_offset)) s
  else
    let sr1 := Z.land (Z.shiftr instr 6) 0x7 in
    set_reg R_PC (reg s sr1) s.

Definition cmd_ld (instr : Z) (s : machine) : option machine :=
  let dr := Z.land (Z.shiftr instr 9) 0x7 in
  let pc_offset := sign_extend (Z.land instr 0x1ff) 9 in
  '(v, s) ← mem_read (u16 (reg s R_PC + pc_offset)) s;
  Some (update_flags dr (set_reg dr v s)).

Definition cmd_ldi (instr : Z) (s : machine) : option machine :=
  let dr := Z.land (Z.shiftr instr 9) 0x7 in
  let pc_offset := sign_extend (Z.land instr 0x1ff) 9 in
  '(a, s) ← mem_read (u16 (reg s R_PC + pc_offset)) s;
  '(v, s) ← mem_read a s;
  Some (update_flags dr (set_reg dr v s)).

Definition cmd_ldr (instr : Z) (s : machine) : option machine :=
  let dr := Z.land (Z.shiftr instr 9) 0x7 in
  let sr1 := Z.land (Z.shiftr instr 6) 0x7 in
  let offset := sign_extend (Z.land instr 0x3f) 6 in
  '(v, s) ← mem_read (u16 (reg s sr1 + offset)) s;
  Some (update_flags dr (set_reg dr v s)).

Definition cmd_lea (instr : Z) (s : machine) : machine :=
  let dr := Z.land (Z.shiftr instr 9) 0x7 in
  let pc_offset := sign_extend (Z.land instr 0x1ff) 9 in
  update_flags dr (set_reg dr (u16 (reg s R_PC + pc_offset)) s).

Definition cmd_st (instr : Z) (s : machine) : option machine :=
  let dr := Z.land (Z.shiftr instr 9) 0x7 in
  let pc_offset := sign_extend (Z.land instr 0x1ff) 9 in
  mem_write (u16 (reg s R_PC + pc_offset)) (reg s dr) s.

Definition cmd_sti (instr : Z) (s : machine) : option machine :=
  let dr := Z.land (Z.shiftr instr 9) 0x7 in
  let pc_offset := sign_extend (Z.land instr 0x1ff) 9 in
  '(a, s) ← mem_read (u16 (reg s R_PC + pc_offset)) s;
  mem_write a (reg s dr) s.

Definition cmd_str (instr : Z) (s : machine) : option machine :=
  let dr := Z.land (Z.shiftr instr 9) 0x7 in
  let sr1 := Z.land (Z.shiftr instr 6) 0x7 in
  let offset := sign_extend (Z.land instr 0x3f) 6 in
  mem_write (u16 (reg s sr1 + offset)) (reg s dr) s.

(** ** Traps *)

(** The two string loops walk a pointer [c] up the array from
    [memory + registers[R_R0]]; [c] is the remaining suffix of the array
    here (the loops write to the terminal only, so the suffix stays a view of
    [memory]).  Walking off the end of the array is an out-of-bounds read. *)
Fixpoint puts_loop (c : list Z) (s : machine) : option machine :=
  match c with
  | [] => None
  | w :: c' =>
      if truthy w then puts_loop c' (putc (to_char w) s)
      else Some s
  end.

Fixpoint putsp_loop (c : list Z) (s : machine) : option machine :=
  match c with
  | [] => None
  | w :: c' =>
      if truthy w then
        let char1 := to_char (Z.land w 0xff) in
        let s := putc char1 s in
        let char2 := to_char (Z.shiftr w 8) in
        let s := if truthy char2 then putc char2 s else s in
        putsp_loop c' s
      else Some s
  end.

Definition cmd_trap (instr : Z) (running : bool) (s : machine)
  : option (bool * machine) :=
  let s := set_reg R_R7 (reg s R_PC) s in
  let vector := Z.land instr 0xFF in
  if vector =? TRAP_GETC then
    let '(c, s) := getchar s in
    Some (running, update_flags R_R0 (set_reg R_R0 (u16 c) s))
  else if vector =? TRAP_OUT then
    Some (running, putc (to_char (reg s R_R0)) s)
  else if vector =? TRAP_PUTS then
    s ← puts_loop (drop (Z.to_nat (reg s R_R0)) (memory s)) s;
    Some (running, s)
  else if vector =? TRAP_IN then
    let s := print "Enter a character: " s in
    let '(x, s) := getchar s in
    let c := to_char x in
    let s := putc c s in
    Some (running, update_flags R_R0 (set_reg R_R0 (u16 c) s))
  else if vector =? TRAP_PUTSP then
    s ← putsp_loop (drop (Z.to_nat (reg s R_R0)) (memory s)) s;
    Some (running, s)
  else if vector =? TRAP_HALT then
    Some (false, print ("HALT" ++ String (ascii_of_nat 10) "") s)
  else Some (running, s).

(** ** Dispatcher *)

(** What one turn of the loop of [main] leaves: the loop goes on, the loop
    condition has become false, or [abort()] was called. *)
Inductive outcome :=
  | Running (s : machine)
  | Halted (s : machine)
  | Aborted (s : machine).

(** [instr = mem_read(registers[R_PC]++)]. *)
Definition fetch (s : machine) : option (Z * machine) :=
  let pc := reg s R_PC in
  mem_read pc (set_reg R_PC (u16 (pc + 1)) s).

(** The instruction word the next turn of the loop fetches. *)
Definition fetched_instr (s : machine) : option Z := fst <$> fetch s.

Definition continue (r : option machine) : option outcome := Running <$> r.

Definition execute (instr : Z) (s : machine) : option outcome :=
  let op := Z.shiftr instr 12 in
  if op =? OP_ADD then Some (Running (cmd_add instr s))
  else if op =? OP_AND then Some (Running (cmd_and instr s))
  else if op =? OP_NOT then Some (Running (cmd_not instr s))
  else if op =? OP_BR then Some (Running (cmd_br instr s))
  else if op =? OP_JMP then Some (Running (cmd_jmp instr s))
  else if op =? OP_JSR then Some (Running (cmd_jsr instr s))
  else if op =? OP_LD then continue (cmd_ld instr s)
  else if op =? OP_LDI then continue (cmd_ldi instr s)
  else if op =? OP_LDR then continue (cmd_ldr instr s)
  else if op =? OP_LEA then Some (Running (cmd_lea instr s))
  else if op =? OP_ST then continue (cmd_st instr s)
  else if op =? OP_STI then continue (cmd_sti instr s)
  else if op =? OP_STR then continue (cmd_str instr s)
  else if op =? OP_TRAP then
    '(running, s) ← cmd_trap instr true s;
    Some (if (running : bool) then Running s else Halted s)
  else Some (Aborted s).

Definition step (s : machine) : option outcome :=
  '(instr, s) ← fetch s;
  execute instr s.

(** At most [n] turns of [while (running)]. *)
Fixpoint run (n : nat) (s : machine) : option outcome :=
  match n with
  | O => Some (Running s)
  | S n =>
      match step s with
      | Some (Running s') => run n s'
      | r => r
      end
  end.

(** The state [main] enters the loop with, from zero-initialised globals. *)
Definition boot (s : machine) : machine :=
  set_reg R_PC PC_START (set_reg R_COND FL_ZRO s).

Definition zeroed : machine :=
  Machine (replicate (Z.to_nat MEMORY_MAX) 0) (replicate (Z.to_nat R_COUNT) 0)
          (Console [] [] []).

(** ** The image loader *)

Definition swap16 (x : Z) : Z := u16 (Z.lor (Z.shiftl x 8) (Z.shiftr x 8)).

(** [fread(memory + p, sizeof(uint16_t), nmemb, file)]: [file] is the bytes
    still to be read; an element is two bytes, assembled the way the
    little-endian hosts of the simulator do.  The result is the number of
    whole elements read.  When the file ends in the middle of an element the
    C library of these hosts still stores the byte it got, which is the low
    byte of the element, and does not count the element. *)
Fixpoint fread (p : Z) (nmemb : nat) (file : list Z) (s : machine)
  : option (nat * machine) :=
  match nmemb with
  | O => Some (O, s)
  | S n =>
      match file with
      | [] => Some (O, s)
      | [b] =>
          v ← load p s;
          s1 ← store p (b + 256 * (v / 256)) s;
          Some (O, s1)
      | b0 :: b1 :: rest =>
          s1 ← store p (b0 + 256 * b1) s;
          '(k, s2) ← fread (p + 1) n rest s1;
          Some (S k, s2)
      end
  end.

(** [while (read-- > 0) { *p = swap16( *p); ++p; }] *)
Fixpoint swap_loop (read : nat) (p : Z) (s : machine) : option machine :=
  match read with
  | O => Some s
  | S n =>
      v ← load p s;
      s1 ← store p (swap16 v) s;
      swap_loop n (p + 1) s1
  end.

(** The first [fread] fills the local [origin].  When the file has fewer
    than two bytes, [origin] keeps an indeterminate value (with the one byte
    of the file, if there is one, as its low byte) and the file is at its
    end: whatever [origin] and [max_read] then are, the second [fread] reads
    no element and the loop does not run, so nothing is stored. *)
Definition read_image_file (file : list Z) (s : machine) : option machine :=
  match file with
  | b0 :: b1 :: rest =>
      let origin := swap16 (b0 + 256 * b1) in
      let max_read := u16 (MEMORY_MAX - origin) in
      '(read, s1) ← fread origin (Z.to_nat max_read) rest s;
      swap_loop read origin s1
  | _ => Some s
  end.

(** [fopen] gives the bytes of the file or fails; the result is the [int]
    that [read_image] returns. *)
Definition read_image (image : option (list Z)) (s : machine)
  : option (Z * machine) :=
  match image with
  | None => Some (0, s)
  | Some file => s' ← read_image_file file s; Some (1, s')
  end.

(** ** [main] *)

(** How the process ends: [exit] or the return from [main] with a status,
    [abort()], or, in this model, the loop still going when the turns
    allowed are used up. *)
Inductive termination :=
  | Exit (status : Z) (s : machine)
  | Abort (s : machine)
  | Unfinished (s : machine).

Definition newline : string := String (ascii_of_nat 10) "".

(** The loop of [main] and the [return 0] behind it. *)
Definition main_loop (fuel : nat) (s : machine) : option termination :=
  match run fuel (boot s) with
  | Some (Running s') => Some (Unfinished s')
  | Some (Halted s') => Some (Exit 0 s')
  | Some (Aborted s') => Some (Abort s')
  | None => None
  end.

(** [for (int j = 1; j < argc; ++j)]: [fs] tells what [fopen] finds under a
    path. *)
Fixpoint main_images (fs : string -> option (list Z)) (paths : list string)
    (fuel : nat) (s : machine) : option termination :=
  match paths with
  | [] => main_loop fuel s
  | path :: rest =>
      '(ok, s1) ← read_image (fs path) s;
      if truthy ok then main_images fs rest fuel s1
      else Some (Exit 1 (print ("failed to load image: " ++ path ++ newline)
                           s1))
  end.

Definition main (fs : string -> option (list Z)) (argv : list string)
    (fuel : nat) (s : machine) : option termination :=
  if Z.of_nat (length argv) <? 2
  then Some (Exit 2 (print ("lc3sim [obj-file1] ..." ++ newline) s))
  else main_images fs (tail argv) fuel s.

(** ** Auxiliary states *)

(** [memory[a] = v] done from outside the program: how a loader or a test
    places a word. *)
Definition poke (a v : Z) (s : machine) : machine :=
  with_memory (<[Z.to_nat a := v]> (memory s)) s.

(** The device update a read of [MR_KBSR] makes before it loads. *)
Definition kbsr_poll (s : machine) : machine :=
  let '(ready, s1) := check_key s in
  if ready then
    let '(c, s3) := getchar (poke MR_KBSR (Z.shiftl 1 15) s1) in
    poke MR_KBDR (u16 c) s3
  else poke MR_KBSR 0 s1.

(** The state the [switch] of [cmd_trap] starts from. *)
Definition linked (s : machine) : machine := set_reg R_R7 (reg s R_PC) s.

(** The prompt and the read of TRAP IN. *)
Definition trap_in_read (s : machine) : Z * machine :=
  getchar (print "Enter a character: " (linked s)).

(** The machine [main] starts the loop with when nothing was loaded. *)
Definition blank : machine := boot zeroed.

(** [blank] with one or two instructions from [PC_START] on. *)
Definition one_instr (instr : Z) : machine := poke PC_START instr blank.
Definition two_instr (i1 i2 : Z) : machine :=
  poke (PC_START + 1) i2 (one_instr i1).

(** A machine for TRAP PUTSP: the instruction at 0x3000, [R_R0] pointing at
    0x4000, and there the words 0x4100, 0x0042 and a terminating zero. *)
Definition putsp_example : machine :=
  poke 0x3000 0xF024
    (poke 0x4000 0x4100 (poke 0x4001 0x0042 (set_reg R_R0 0x4000 blank))).

(** The blank machine with a key waiting: the next poll answers that input
    is ready and the character 'a' is the next to be read. *)
Definition keyboard_example : machine :=
  with_io (Console [true] [0x61] []) blank.

(** The blank machine with 0xFFFF in [R_R0] and ADD R0, R0, #1 at
    0x3000. *)
Definition wrap_example : machine := set_reg R_R0 0xFFFF (one_instr 0x1021).

(** The blank machine with 0xFFFF in [R_R1] and STR R0, R1, #0 at 0x3000:
    a store to the highest address. *)
Definition top_store_example : machine := set_reg R_R1 0xFFFF (one_instr 0x7040).

(** Whether the loop is still going after [n] turns, and the state it is in
    then. *)
Definition still_running (n : nat) (s : machine) : bool :=
  match run n s with Some (Running _) => true | _ => false end.

Definition state_after (n : nat) (s : machine) : machine :=
  match run n s with Some (Running s') => s' | _ => s end.

(** ** Specification-side definitions *)



(** The address of the instruction that follows the one [R_PC] points at. *)
Definition next_pc (s : machine) : Z := u16 (reg s R_PC + 1).


(** What a step does with each PC-relative instruction, written with the
    address [next_pc s + offset]; [s] is the state before the step and [s1]
    the state the handler is entered with. *)
Definition pc_relative_step (s s1 : machine) (instr : Z) : Prop :=
  let op := Z.shiftr instr 12 in
  let dr := Z.land (Z.shiftr instr 9) 0x7 in
  let target9 := u16 (next_pc s + sign_extend (Z.land instr 0x1ff) 9) in
  let target11 := u16 (next_pc s + sign_extend (Z.land instr 0x7ff) 11) in
  (op = OP_BR -> truthy (Z.land dr (reg s R_COND)) = true ->
     step s = Some (Running (set_reg R_PC target9 s1))) /\
  (op = OP_LD ->
     step s = continue ('(v, s2) ← mem_read target9 s1;
                        Some (update_flags dr (set_reg dr v s2)))) /\
  (op = OP_LDI ->
     step s = continue ('(a, s2) ← mem_read target9 s1;
                        '(v, s3) ← mem_read a s2;
                        Some (update_flags dr (set_reg dr v s3)))) /\
  (op = OP_LEA ->
     step s = Some (Running (update_flags dr (set_reg dr target9 s1)))) /\
  (op = OP_ST ->
     step s = continue (mem_write target9 (reg s dr) s1)) /\
  (op = OP_STI ->
     step s = continue ('(a, s2) ← mem_read target9 s1;
                        mem_write a (reg s dr) s2)) /\
  (op = OP_JSR -> truthy (Z.land (Z.shiftr instr 11) 1) = true ->
     step s = Some (Running (set_reg R_PC target11
                               (set_reg R_R7 (next_pc s) s1)))).

(** Writing the characters [cs] to the terminal. *)
Definition emit (cs : list Z) (s : machine) : machine :=
  with_io (Console (polls (io s)) (input (io s)) (output (io s) ++ cs)) s.

(** The characters of one packed word: the low byte, then the high byte
    when it is not zero; and those of a sequence of such words. *)
Definition word_chars (w : Z) : list Z :=
  Z.land w 0xff :: (if Z.shiftr w 8 =? 0 then [] else [Z.shiftr w 8]).

Definition packed_chars (ws : list Z) : list Z := flat_map word_chars ws.

(** The output of TRAP PUTSP as [C4] words it: packed characters up to the
    first zero word, the sequence ending early at a word whose low byte is
    zero and whose high byte is not. *)
Fixpoint putsp_claimed (ws : list Z) : list Z :=
  match ws with
  | [] => []
  | w :: ws' =>
      if w =? 0 then []
      else if Z.land w 0xff =? 0 then []
      else word_chars w ++ putsp_claimed ws'
  end.

(** What a read of the keyboard status register does in state [s], where
    the poll answers [ready] and [c] is what [getchar] would return next;
    and what reads of the keyboard data register do. *)
Definition kbsr_read_spec (s : machine) (ready : bool) (c : Z) : Prop :=
  let status := if ready then Z.shiftl 1 15 else 0 in
  (exists s',
     mem_read MR_KBSR s = Some (status, s') /\
     load MR_KBSR s' = Some status /\
     Z.testbit status 15 = ready /\
     polls (io s') = tail (polls (io s)) /\
     (if ready
      then load MR_KBDR s' = Some (u16 c) /\
           input (io s') = tail (input (io s)) /\
           mem_read MR_KBDR s' = Some (u16 c, s')
      else load MR_KBDR s' = load MR_KBDR s /\
           input (io s') = input (io s))) /\
  (forall t v, load MR_KBDR t = Some v -> mem_read MR_KBDR t = Some (v, t)).


(** ** Definitions for the invariants of the loop *)

(** The state an outcome carries. *)
Definition outcome_state (o : outcome) : machine :=
  match o with Running s | Halted s | Aborted s => s end.

(** [R_COND] holds one of the three flags. *)
Definition one_flag (s : machine) : bool :=
  (reg s R_COND =? FL_POS) || (reg s R_COND =? FL_ZRO)
  || (reg s R_COND =? FL_NEG).

(** The terminal only moves forward: polls and input are consumed from the
    front, output is appended. *)
Definition console_extends (c c' : console) : Prop :=
  (exists k, polls c' = drop k (polls c)) /\
  (exists k, input c' = drop k (input c)) /\
  (exists o, output c' = output c ++ o).

(** The ways the handlers change the state, one elementary change at a
    time: a 16-bit word into a general register or the PC, a flag into
    [R_COND], a 16-bit word into a memory cell, or the terminal moving
    forward. *)
Inductive updates : machine -> machine -> Prop :=
  | updates_refl s : updates s s
  | updates_reg r v s s' :
      0 <= r < R_COND -> word v ->
      updates (set_reg r v s) s' -> updates s s'
  | updates_flag f s s' :
      f = FL_POS \/ f = FL_ZRO \/ f = FL_NEG ->
      updates (set_reg R_COND f s) s' -> updates s s'
  | updates_mem a v s s' :
      word v -> updates (poke a v s) s' -> updates s s'
  | updates_io c s s' :
      console_extends (io s) c -> updates (with_io c s) s' -> updates s s'.

(** [blank] with TRAP HALT as second instruction after ADD R0, R0, #1. *)
Definition halt_example : machine := two_instr 0x1021 0xF025.

(** The number a [w]-bit field [x] stands for in two's complement. *)
Definition signed (w x : Z) : Z := if x <? 2 ^ (w - 1) then x else x - 2 ^ w.

(** The blank machine with [R_R0] pointing at the last word of the array,
    which is not zero: a string without its terminating zero word. *)
Definition unterminated_example : machine :=
  poke 0xFFFE 0x41 (set_reg R_R0 0xFFFE blank).

(** The blank machine with [R_R0] pointing at the words 'H', 0x169 (an 'i'
    with a bit set above the low byte) and zero. *)
Definition puts_example : machine :=
  poke 0x4000 0x48 (poke 0x4001 0x169 (set_reg R_R0 0x4000 blank)).

(** The prompt of TRAP IN. *)
Definition in_prompt : list Z := bytes_of_string "Enter a character: ".

(** What TRAP GETC (echo off) and TRAP IN (echo on) do in state [s] when the
    next character of the input is [c], followed by [rest]. *)
Definition reads_char (echo : bool) (s : machine) (c : Z) (rest : list Z)
    (s' : machine) : Prop :=
  reg s' R_R0 = c /\
  reg s' R_COND = (if c =? 0 then FL_ZRO else FL_POS) /\
  input (io s') = rest /\
  output (io s') = output (io s) ++ (if echo then in_prompt ++ [c] else []) /\
  memory s' = memory s.

(** The words of an image body as the file format means them: two bytes
    each, high byte first. *)
Fixpoint be_words (bytes : list Z) : list Z :=
  match bytes with
  | hi :: lo :: rest => (256 * hi + lo) :: be_words rest
  | _ => []
  end.

(** The same bytes as [fread] assembles them on the host, low byte first. *)
Fixpoint le_words (bytes : list Z) : list Z :=
  match bytes with
  | b0 :: b1 :: rest => (b0 + 256 * b1) :: le_words rest
  | _ => []
  end.

(** The origin an image file names, and the words of it that fit between
    the origin and the end of the array. *)
Definition image_origin (file : list Z) : Z :=
  match file with
  | hi :: lo :: _ => 256 * hi + lo
  | _ => 0
  end.

Definition loaded_words (file : list Z) : list Z :=
  take (Z.to_nat (MEMORY_MAX - image_origin file)) (be_words (drop 2 file)).

(** An image file as the format has it: an origin, whole two-byte words,
    every byte below 256. *)
Definition byteb (b : Z) : bool := (0 <=? b) && (b <? 256).
Definition valid_image (file : list Z) : bool :=
  (2 <=? length file)%nat && Nat.even (length file) && forallb byteb file.

(** The byte left over when a sequence of bytes is taken two by two. *)
Fixpoint odd_byte (bytes : list Z) : option Z :=
  match bytes with
  | [] => None
  | [b] => Some b
  | _ :: _ :: rest => odd_byte rest
  end.

(** What [fread] does to the array beyond the whole elements it reads into
    the [n] places from [p] on: when half an element is left in [file] and
    there is a place for it, its byte becomes the low byte of the word
    there. *)
Definition partial_store (p n : nat) (file mem : list Z) : list Z :=
  match odd_byte file with
  | Some b =>
      if (length (le_words file) <? n)%nat
      then <[(p + length (le_words file))%nat :=
               b + 256 * (mem !!! (p + length (le_words file))%nat / 256)]> mem
      else mem
  | None => mem
  end.

(** The half word at the end of an image file, when the file has one and
    there is room for it in the array; and the number of words the loader
    writes to, the half word included. *)
Definition image_partial (file : list Z) : option Z :=
  if (length (be_words (drop 2 file))
      <? Z.to_nat (MEMORY_MAX - image_origin file))%nat
  then odd_byte (drop 2 file)
  else None.

Definition touched_words (file : list Z) : nat :=
  (length (loaded_words file)
   + match image_partial file with Some _ => 1 | None => 0 end)%nat.

(** The loader on any file of bytes, read in state [s] with result [s']. *)
Definition image_loaded (file : list Z) (s s' : machine) : Prop :=
  wf_machine s' = true /\
  registers s' = registers s /\
  io s' = io s /\
  image_origin file + Z.of_nat (touched_words file) <= MEMORY_MAX /\
  (forall i w, loaded_words file !! i = Some w ->
     load (image_origin file + Z.of_nat i) s' = Some w) /\
  (forall b old, image_partial file = Some b ->
     load (image_origin file + Z.of_nat (length (loaded_words file))) s
       = Some old ->
     load (image_origin file + Z.of_nat (length (loaded_words file))) s'
       = Some (b + 256 * (old / 256))) /\
  (forall a, 0 <= a ->
     a < image_origin file \/
     image_origin file + Z.of_nat (touched_words file) <= a ->
     load a s' = load a s).

(** An image file that ends in the middle of its second word. *)
Definition odd_image_example : list Z := [0x30; 0x00; 0xE0; 0x02; 0xF0].

(** An image with origin 0x3000 and the words 0xE002 and 0xF025. *)
Definition image_example : list Z := [0x30; 0x00; 0xE0; 0x02; 0xF0; 0x25].




(** A file system with the image [image_example] under the name "a.obj" and
    [odd_image_example] under "odd.obj". *)
Definition fs_example (path : string) : option (list Z) :=
  if String.eqb path "a.obj" then Some image_example
  else if String.eqb path "odd.obj" then Some odd_image_example
  else None.

(** The text [puts("HALT")] writes. *)
Definition halt_notice : list Z :=
  bytes_of_string ("HALT" ++ String (ascii_of_nat 10) "").

(** * Basic facts *)

Section Words.

Lemma truthy_true x : truthy x = true <-> x <> 0.
Proof. unfold truthy. destruct (Z.eqb_spec x 0); simpl; split; congruence. Qed.

Lemma truthy_false x : truthy x = false <-> x = 0.
Proof. unfold truthy. destruct (Z.eqb_spec x 0); simpl; split; congruence. Qed.

Lemma u16_word x : word (u16 x).
Proof. unfold word, u16. apply Z.mod_pos_bound. lia. Qed.

Lemma u16_id x : word x -> u16 x = x.
Proof. unfold word, u16. intros H. apply Z.mod_small. exact H. Qed.

Lemma wordb_word x : wordb x = true <-> word x.
Proof. unfold wordb, word. rewrite andb_true_iff. lia. Qed.

(** A three-bit field names one of [R_R0] .. [R_R7]. *)
Lemma field3 x : 0 <= Z.land x 0x7 < 8.
Proof.
  change 0x7 with (Z.ones 3). rewrite Z.land_ones by lia.
  apply Z.mod_pos_bound. reflexivity.
Qed.

Lemma land_low x n : 0 <= n -> 0 <= Z.land x (Z.ones n) < 2 ^ n.
Proof.
  intros Hn. rewrite Z.land_ones by lia. apply Z.mod_pos_bound.
  apply Z.pow_pos_nonneg; lia.
Qed.

Lemma to_char_byte b : 0 <= b < 256 -> to_char b mod 256 = b.
Proof.
  intros Hb. unfold to_char.
  destruct (Z_lt_le_dec b 128).
  - rewrite (Z.mod_small (b + 128)) by lia.
    replace (b + 128 - 128) with b by lia. apply Z.mod_small. lia.
  - replace (b + 128) with (b - 128 + 1 * 256) by lia.
    rewrite Z.mod_add by lia. rewrite (Z.mod_small (b - 128)) by lia.
    replace (b - 128 - 128) with (b + (-1) * 256) by lia.
    rewrite Z.mod_add by lia. apply Z.mod_small. lia.
Qed.

Lemma to_char_zero b : 0 <= b < 256 -> to_char b = 0 <-> b = 0.
Proof.
  intros Hb. split.
  - intros H0. rewrite <- (to_char_byte b Hb). rewrite H0. reflexivity.
  - intros ->. reflexivity.
Qed.

Lemma word_low_byte w : 0 <= Z.land w 0xff < 256.
Proof. change 0xff with (Z.ones 8). apply (land_low w 8). lia. Qed.

Lemma word_high_byte w : word w -> 0 <= Z.shiftr w 8 < 256.
Proof.
  unfold word. intros Hw. rewrite Z.shiftr_div_pow2 by lia.
  change (2 ^ 8) with 256. split.
  - apply Z.div_pos; lia.
  - apply Z.div_lt_upper_bound; lia.
Qed.

End Words.

Section SignExtend.

Lemma sign_extend_testbit_low x w i :
  0 <= i < w -> w <= 16 ->
  Z.testbit (sign_extend x w) i = Z.testbit x i.
Proof.
  intros Hi Hw. unfold sign_extend.
  destruct (truthy _); [|reflexivity].
  unfold u16. change 65536 with (2 ^ 16).
  rewrite Z.mod_pow2_bits_low by lia.
  rewrite Z.lor_spec, Z.shiftl_spec by lia.
  rewrite (Z.testbit_neg_r 0xFFFF) by lia.
  apply orb_false_r.
Qed.

Lemma sign_extend_low_bits x w :
  0 < w <= 16 -> 0 <= x < 2 ^ w ->
  Z.land (sign_extend x w) (2 ^ w - 1) = x.
Proof.
  intros Hw Hx.
  replace (2 ^ w - 1) with (Z.ones w) by (rewrite Z.ones_equiv; lia).
  apply Z.bits_inj'. intros i Hi.
  rewrite Z.land_spec.
  destruct (Z_lt_le_dec i w) as [Hlt|Hge].
  - rewrite sign_extend_testbit_low by lia.
    rewrite Z.ones_spec_low by lia. apply andb_true_r.
  - rewrite Z.ones_spec_high by lia. rewrite andb_false_r.
    symmetry. destruct (Z.eq_dec x 0) as [->|Hnz].
    + apply Z.bits_0.
    + apply Z.bits_above_log2; [lia|].
      apply Z.lt_le_trans with w; [|exact Hge].
      apply Z.log2_lt_pow2; lia.
Qed.

Lemma sign_extend_word x w : 0 <= w -> word x -> word (sign_extend x w).
Proof.
  intros Hw Hx. unfold sign_extend. destruct (truthy _).
  - apply u16_word.
  - exact Hx.
Qed.

End SignExtend.

(** [C8] For each of the field widths 5, 6, 9 and 11 and every value [x] of
    that many bits, masking [sign_extend x w] to its low [w] bits gives [x]
    back. *)
Theorem sign_extend_roundtrip (w x : Z) :
  w = 5 \/ w = 6 \/ w = 9 \/ w = 11 ->
  0 <= x < 2 ^ w ->
  Z.land (sign_extend x w) (2 ^ w - 1) = x.
Proof.
  intros Hw Hx. apply sign_extend_low_bits; [lia | exact Hx].
Qed.

Lemma sign_extend_roundtrip_witness :
  Z.land (sign_extend 0x1f 5) (2 ^ 5 - 1) = 0x1f.
Proof.
  apply (sign_extend_roundtrip 5 0x1f).
  - left. reflexivity.
  - simpl. lia.
Defined.

(** * The register file and the memory array *)

Section State.

Lemma wf_machine_spec s :
  wf_machine s = true <->
  Z.of_nat (length (memory s)) = MEMORY_MAX /\ Forall word (memory s) /\
  length (registers s) = Z.to_nat R_COUNT /\ Forall word (registers s).
Proof.
  unfold wf_machine. rewrite !andb_true_iff, !Z.eqb_eq.
  rewrite !forallb_forall, !Forall_forall.
  unfold MEMORY_MAX, UINT16_MAX, R_COUNT.
  setoid_rewrite wordb_word. setoid_rewrite list_elem_of_In.
  intuition lia.
Qed.

Lemma wf_registers_length s :
  wf_machine s = true -> length (registers s) = 10%nat.
Proof. intros H. apply wf_machine_spec in H. tauto. Qed.

Lemma wf_memory_length s :
  wf_machine s = true -> Z.of_nat (length (memory s)) = MEMORY_MAX.
Proof. intros H. apply wf_machine_spec in H. tauto. Qed.

Lemma reg_set_reg r v s :
  0 <= r < R_COUNT -> length (registers s) = 10%nat ->
  reg (set_reg r v s) r = v.
Proof.
  unfold R_COUNT, reg, set_reg. intros Hr Hlen. simpl.
  apply list_lookup_total_insert_eq. lia.
Qed.

Lemma reg_set_reg_ne r r' v s :
  0 <= r -> 0 <= r' -> r <> r' -> reg (set_reg r v s) r' = reg s r'.
Proof.
  unfold reg, set_reg. intros Hr Hr' Hne. simpl.
  apply list_lookup_total_insert_ne. lia.
Qed.

Lemma length_set_reg r v s :
  length (registers (set_reg r v s)) = length (registers s).
Proof. unfold set_reg. simpl. apply length_insert. Qed.

Lemma memory_set_reg r v s : memory (set_reg r v s) = memory s.
Proof. reflexivity. Qed.

Lemma io_set_reg r v s : io (set_reg r v s) = io s.
Proof. reflexivity. Qed.

Lemma reg_word s r :
  0 <= r < R_COUNT -> wf_machine s = true -> word (reg s r).
Proof.
  unfold R_COUNT. intros Hr Hwf. apply wf_machine_spec in Hwf.
  destruct Hwf as (_ & _ & Hlen & Hall). unfold reg.
  apply (Forall_lookup_1 _ _ (Z.to_nat r) _ Hall).
  apply list_lookup_lookup_total_lt. unfold R_COUNT in Hlen. lia.
Qed.

Lemma wf_set_reg r v s :
  word v -> wf_machine s = true -> wf_machine (set_reg r v s) = true.
Proof.
  intros Hv Hwf. apply wf_machine_spec in Hwf. apply wf_machine_spec.
  destruct Hwf as (Hm & Hmw & Hr & Hrw). unfold set_reg. simpl.
  rewrite length_insert. repeat split; try assumption.
  apply Forall_insert; assumption.
Qed.

(** [update_flags] rewrites [R_COND] and nothing else. *)
Lemma update_flags_set r s :
  exists f, (f = FL_ZRO \/ f = FL_NEG \/ f = FL_POS) /\
            update_flags r s = set_reg R_COND f s.
Proof.
  unfold update_flags. destruct (reg s r =? 0); [eauto|].
  destruct (truthy _); eauto 6.
Qed.

Lemma reg_update_flags r r' s :
  0 <= r' < R_COND -> reg (update_flags r s) r' = reg s r'.
Proof.
  intros Hr'. destruct (update_flags_set r s) as (f & _ & ->).
  apply reg_set_reg_ne; unfold R_COND in *; lia.
Qed.

Lemma memory_update_flags r s : memory (update_flags r s) = memory s.
Proof. destruct (update_flags_set r s) as (f & _ & ->). reflexivity. Qed.

Lemma io_update_flags r s : io (update_flags r s) = io s.
Proof. destruct (update_flags_set r s) as (f & _ & ->). reflexivity. Qed.

Lemma length_update_flags r s :
  length (registers (update_flags r s)) = length (registers s).
Proof.
  destruct (update_flags_set r s) as (f & _ & ->). apply length_set_reg.
Qed.

(** Stores and loads inside the array. *)
Lemma store_Some a v s :
  a < MEMORY_MAX -> store a v s = Some (poke a v s).
Proof.
  intros Ha. unfold store. apply Z.ltb_lt in Ha. rewrite Ha. reflexivity.
Qed.

Lemma store_None a v s : MEMORY_MAX <= a -> store a v s = None.
Proof.
  intros Ha. unfold store. apply Z.ltb_ge in Ha. rewrite Ha. reflexivity.
Qed.

Lemma load_poke a v s :
  0 <= a < MEMORY_MAX -> Z.of_nat (length (memory s)) = MEMORY_MAX ->
  load a (poke a v s) = Some v.
Proof.
  intros Ha Hlen. unfold load, poke. simpl.
  destruct (Z.ltb_spec a MEMORY_MAX); [|lia].
  apply list_lookup_insert_eq. lia.
Qed.

Lemma load_poke_ne a b v s :
  0 <= a -> 0 <= b -> a <> b -> load b (poke a v s) = load b s.
Proof.
  intros Ha Hb Hne. unfold load, poke. simpl.
  destruct (b <? MEMORY_MAX); [|reflexivity].
  apply list_lookup_insert_ne. lia.
Qed.


Lemma load_word a v s :
  wf_machine s = true -> load a s = Some v -> word v.
Proof.
  intros Hwf Hl. apply wf_machine_spec in Hwf.
  destruct Hwf as (_ & Hall & _). unfold load in Hl.
  destruct (a <? MEMORY_MAX); [|discriminate].
  exact (Forall_lookup_1 _ _ _ _ Hall Hl).
Qed.

Lemma length_poke a v s : length (memory (poke a v s)) = length (memory s).
Proof. unfold poke. simpl. apply length_insert. Qed.

Lemma wf_poke a v s :
  word v -> wf_machine s = true -> wf_machine (poke a v s) = true.
Proof.
  intros Hv Hwf. apply wf_machine_spec in Hwf. apply wf_machine_spec.
  destruct Hwf as (Hm & Hmw & Hr & Hrw). unfold poke. simpl.
  rewrite length_insert. repeat split; try assumption.
  apply Forall_insert; assumption.
Qed.

End State.

(** * Memory reads and the keyboard registers *)

Section MemRead.

Lemma registers_check_key s : registers (check_key s).2 = registers s.
Proof. unfold check_key. destruct (polls (io s)); reflexivity. Qed.

Lemma memory_check_key s : memory (check_key s).2 = memory s.
Proof. unfold check_key. destruct (polls (io s)); reflexivity. Qed.

Lemma registers_getchar s : registers (getchar s).2 = registers s.
Proof. unfold getchar. destruct (input (io s)); reflexivity. Qed.

Lemma memory_getchar s : memory (getchar s).2 = memory s.
Proof. unfold getchar. destruct (input (io s)); reflexivity. Qed.

Lemma registers_store a v s s' : store a v s = Some s' -> registers s' = registers s.
Proof.
  unfold store. destruct (a <? MEMORY_MAX); [|discriminate].
  intros [= <-]. reflexivity.
Qed.

Lemma io_store a v s s' : store a v s = Some s' -> io s' = io s.
Proof.
  unfold store. destruct (a <? MEMORY_MAX); [|discriminate].
  intros [= <-]. reflexivity.
Qed.

(** Away from the keyboard status register a read is a plain load. *)
Lemma mem_read_plain a s :
  a <> MR_KBSR -> mem_read a s = (v ← load a s; Some (v, s)).
Proof.
  intros Ha. unfold mem_read. apply Z.eqb_neq in Ha. rewrite Ha. reflexivity.
Qed.

Lemma mem_read_kbsr s :
  mem_read MR_KBSR s = (v ← load MR_KBSR (kbsr_poll s); Some (v, kbsr_poll s)).
Proof.
  unfold mem_read, kbsr_poll. rewrite Z.eqb_refl.
  destruct (check_key s) as [ready s1]. destruct ready.
  - rewrite store_Some by reflexivity. simpl.
    destruct (getchar _) as [c s3]. rewrite store_Some by reflexivity.
    reflexivity.
  - rewrite store_Some by reflexivity. reflexivity.
Qed.

Lemma registers_kbsr_poll s : registers (kbsr_poll s) = registers s.
Proof.
  unfold kbsr_poll. pose proof (registers_check_key s) as Hk.
  destruct (check_key s) as [ready s1]. simpl in Hk. destruct ready.
  - pose proof (registers_getchar (poke MR_KBSR (Z.shiftl 1 15) s1)) as Hg.
    destruct (getchar _) as [c s3]. simpl in *. congruence.
  - simpl. exact Hk.
Qed.

Lemma wf_check_key s : wf_machine s = true -> wf_machine (check_key s).2 = true.
Proof. unfold check_key. destruct (polls (io s)); intros H; exact H. Qed.

Lemma wf_getchar s : wf_machine s = true -> wf_machine (getchar s).2 = true.
Proof. unfold getchar. destruct (input (io s)); intros H; exact H. Qed.

Lemma wf_kbsr_poll s : wf_machine s = true -> wf_machine (kbsr_poll s) = true.
Proof.
  intros Hwf. unfold kbsr_poll. pose proof (wf_check_key s Hwf) as Hk.
  destruct (check_key s) as [ready s1]. simpl in Hk. destruct ready.
  - assert (Hp : wf_machine (poke MR_KBSR (Z.shiftl 1 15) s1) = true).
    { apply wf_poke; [|exact Hk]. change (Z.shiftl 1 15) with 32768.
      unfold word. lia. }
    pose proof (wf_getchar _ Hp) as Hg.
    destruct (getchar _) as [c s3]. simpl in Hg.
    apply wf_poke; [apply u16_word | exact Hg].
  - apply wf_poke; [|exact Hk]. unfold word. lia.
Qed.

(** A read never touches the register file, keeps the state well formed and
    yields a 16-bit word. *)
Lemma mem_read_inv a s v s' :
  wf_machine s = true -> mem_read a s = Some (v, s') ->
  registers s' = registers s /\ wf_machine s' = true /\ word v.
Proof.
  intros Hwf. destruct (Z.eq_dec a MR_KBSR) as [->|Hne].
  - rewrite mem_read_kbsr. intros H.
    destruct (load MR_KBSR (kbsr_poll s)) as [v'|] eqn:Hl; [|discriminate].
    simpl in H. injection H as <- <-.
    pose proof (wf_kbsr_poll s Hwf) as Hwf'.
    split; [apply registers_kbsr_poll|]. split; [exact Hwf'|].
    exact (load_word _ _ _ Hwf' Hl).
  - rewrite mem_read_plain by exact Hne. intros H.
    destruct (load a s) as [v'|] eqn:Hl; [|discriminate].
    simpl in H. injection H as <- <-.
    split; [reflexivity|]. split; [exact Hwf|].
    exact (load_word _ _ _ Hwf Hl).
Qed.

Lemma mem_read_reg a s v s' r :
  wf_machine s = true -> mem_read a s = Some (v, s') -> reg s' r = reg s r.
Proof.
  intros Hwf H. destruct (mem_read_inv _ _ _ _ Hwf H) as (Hr & _).
  unfold reg. rewrite Hr. reflexivity.
Qed.

End MemRead.

(** * Fetch *)

Section Fetch.

Variables (s s1 : machine) (instr : Z).
Hypothesis Hwf : wf_machine s = true.
Hypothesis Hfetch : fetch s = Some (instr, s1).

Lemma fetch_registers :
  registers s1 = <[Z.to_nat R_PC := u16 (reg s R_PC + 1)]> (registers s).
Proof using Hwf Hfetch.
  unfold fetch in Hfetch.
  assert (Hwf' : wf_machine (set_reg R_PC (u16 (reg s R_PC + 1)) s) = true)
    by (apply wf_set_reg; [apply u16_word | exact Hwf]).
  destruct (mem_read_inv _ _ _ _ Hwf' Hfetch) as (Hr & _). exact Hr.
Qed.

Lemma fetch_wf : wf_machine s1 = true.
Proof using Hwf Hfetch.
  unfold fetch in Hfetch.
  assert (Hwf' : wf_machine (set_reg R_PC (u16 (reg s R_PC + 1)) s) = true)
    by (apply wf_set_reg; [apply u16_word | exact Hwf]).
  destruct (mem_read_inv _ _ _ _ Hwf' Hfetch) as (_ & H & _). exact H.
Qed.

Lemma fetch_instr_word : word instr.
Proof using Hwf Hfetch.
  unfold fetch in Hfetch.
  assert (Hwf' : wf_machine (set_reg R_PC (u16 (reg s R_PC + 1)) s) = true)
    by (apply wf_set_reg; [apply u16_word | exact Hwf]).
  destruct (mem_read_inv _ _ _ _ Hwf' Hfetch) as (_ & _ & H). exact H.
Qed.

(** After the fetch [R_PC] is the address of the next instruction. *)
Lemma fetch_pc : reg s1 R_PC = u16 (reg s R_PC + 1).
Proof using Hwf Hfetch.
  unfold reg at 1. rewrite fetch_registers.
  apply list_lookup_total_insert_eq.
  rewrite (wf_registers_length s Hwf). unfold R_PC. simpl. lia.
Qed.

Lemma fetch_reg r : 0 <= r -> r <> R_PC -> reg s1 r = reg s r.
Proof using Hwf Hfetch.
  intros Hr Hne. unfold reg at 1. rewrite fetch_registers.
  apply list_lookup_total_insert_ne. unfold R_PC in *. lia.
Qed.

Lemma step_fetch : step s = execute instr s1.
Proof using Hfetch. unfold step. rewrite Hfetch. reflexivity. Qed.

End Fetch.

Lemma fetched_instr_fetch s instr :
  fetched_instr s = Some instr -> exists s1, fetch s = Some (instr, s1).
Proof.
  unfold fetched_instr. destruct (fetch s) as [[i s1]|]; [|discriminate].
  simpl. intros [= ->]. exists s1. reflexivity.
Qed.

(** * Condition flags *)

Section Flags.












End Flags.

(** * Decoding *)

Section Decode.

Lemma opcode_range instr : word instr -> 0 <= Z.shiftr instr 12 < 16.
Proof.
  unfold word. intros Hw. rewrite Z.shiftr_div_pow2 by lia.
  change (2 ^ 12) with 4096. split.
  - apply Z.div_pos; lia.
  - apply Z.div_lt_upper_bound; lia.
Qed.

Variables (instr : Z) (s : machine).

Lemma execute_add :
  Z.shiftr instr 12 = OP_ADD -> execute instr s = Some (Running (cmd_add instr s)).
Proof. intros H. unfold execute. rewrite H. reflexivity. Qed.

Lemma execute_and :
  Z.shiftr instr 12 = OP_AND -> execute instr s = Some (Running (cmd_and instr s)).
Proof. intros H. unfold execute. rewrite H. reflexivity. Qed.

Lemma execute_not :
  Z.shiftr instr 12 = OP_NOT -> execute instr s = Some (Running (cmd_not instr s)).
Proof. intros H. unfold execute. rewrite H. reflexivity. Qed.

Lemma execute_br :
  Z.shiftr instr 12 = OP_BR -> execute instr s = Some (Running (cmd_br instr s)).
Proof. intros H. unfold execute. rewrite H. reflexivity. Qed.

Lemma execute_jmp :
  Z.shiftr instr 12 = OP_JMP -> execute instr s = Some (Running (cmd_jmp instr s)).
Proof. intros H. unfold execute. rewrite H. reflexivity. Qed.

Lemma execute_jsr :
  Z.shiftr instr 12 = OP_JSR -> execute instr s = Some (Running (cmd_jsr instr s)).
Proof. intros H. unfold execute. rewrite H. reflexivity. Qed.

Lemma execute_ld :
  Z.shiftr instr 12 = OP_LD -> execute instr s = continue (cmd_ld instr s).
Proof. intros H. unfold execute. rewrite H. reflexivity. Qed.

Lemma execute_ldi :
  Z.shiftr instr 12 = OP_LDI -> execute instr s = continue (cmd_ldi instr s).
Proof. intros H. unfold execute. rewrite H. reflexivity. Qed.

Lemma execute_ldr :
  Z.shiftr instr 12 = OP_LDR -> execute instr s = continue (cmd_ldr instr s).
Proof. intros H. unfold execute. rewrite H. reflexivity. Qed.

Lemma execute_lea :
  Z.shiftr instr 12 = OP_LEA -> execute instr s = Some (Running (cmd_lea instr s)).
Proof. intros H. unfold execute. rewrite H. reflexivity. Qed.

Lemma execute_st :
  Z.shiftr instr 12 = OP_ST -> execute instr s = continue (cmd_st instr s).
Proof. intros H. unfold execute. rewrite H. reflexivity. Qed.

Lemma execute_sti :
  Z.shiftr instr 12 = OP_STI -> execute instr s = continue (cmd_sti instr s).
Proof. intros H. unfold execute. rewrite H. reflexivity. Qed.

Lemma execute_str :
  Z.shiftr instr 12 = OP_STR -> execute instr s = continue (cmd_str instr s).
Proof. intros H. unfold execute. rewrite H. reflexivity. Qed.

Lemma execute_trap :
  Z.shiftr instr 12 = OP_TRAP ->
  execute instr s =
    ('(running, s') ← cmd_trap instr true s;
     Some (if (running : bool) then Running s' else Halted s')).
Proof. intros H. unfold execute. rewrite H. reflexivity. Qed.

Lemma execute_rti :
  Z.shiftr instr 12 = OP_RTI -> execute instr s = Some (Aborted s).
Proof. intros H. unfold execute. rewrite H. reflexivity. Qed.

Lemma execute_res :
  Z.shiftr instr 12 = OP_RES -> execute instr s = Some (Aborted s).
Proof. intros H. unfold execute. rewrite H. reflexivity. Qed.

End Decode.

(** * Traps *)

Section Trap.

Variables (instr : Z) (running : bool) (s : machine).

Lemma cmd_trap_getc :
  Z.land instr 0xFF = TRAP_GETC ->
  cmd_trap instr running s =
    Some (running, update_flags R_R0
                     (set_reg R_R0 (u16 (getchar (linked s)).1)
                        (getchar (linked s)).2)).
Proof.
  intros H. unfold cmd_trap. rewrite H. fold (linked s).
  change (TRAP_GETC =? TRAP_GETC) with true. cbv iota.
  destruct (getchar (linked s)). reflexivity.
Qed.

Lemma cmd_trap_in :
  Z.land instr 0xFF = TRAP_IN ->
  cmd_trap instr running s =
    Some (running, update_flags R_R0
                     (set_reg R_R0 (u16 (to_char (trap_in_read s).1))
                        (putc (to_char (trap_in_read s).1) (trap_in_read s).2))).
Proof.
  intros H. unfold cmd_trap, trap_in_read. rewrite H. fold (linked s).
  change (TRAP_IN =? TRAP_GETC) with false.
  change (TRAP_IN =? TRAP_OUT) with false.
  change (TRAP_IN =? TRAP_PUTS) with false.
  change (TRAP_IN =? TRAP_IN) with true. cbv iota.
  destruct (getchar _). reflexivity.
Qed.

Lemma cmd_trap_putsp :
  Z.land instr 0xFF = TRAP_PUTSP ->
  cmd_trap instr running s =
    (s' ← putsp_loop (drop (Z.to_nat (reg (linked s) R_R0)) (memory s))
                     (linked s);
     Some (running, s')).
Proof.
  intros H. unfold cmd_trap. rewrite H. reflexivity.
Qed.

Lemma cmd_trap_halt :
  Z.land instr 0xFF = TRAP_HALT ->
  cmd_trap instr running s =
    Some (false, print ("HALT" ++ String (ascii_of_nat 10) "") (linked s)).
Proof.
  intros H. unfold cmd_trap. rewrite H. reflexivity.
Qed.

Lemma cmd_trap_unknown :
  ~ (TRAP_GETC <= Z.land instr 0xFF <= TRAP_HALT) ->
  cmd_trap instr running s = Some (running, linked s).
Proof.
  unfold TRAP_GETC, TRAP_HALT. intros H. unfold cmd_trap. fold (linked s).
  repeat match goal with
  | |- context [?v =? ?c] =>
      destruct (Z.eqb_spec v c) as [E|_];
      [exfalso; apply H; rewrite E; vm_compute; split; discriminate|]
  end.
  reflexivity.
Qed.

Lemma length_linked : length (registers (linked s)) = length (registers s).
Proof. apply length_set_reg. Qed.

End Trap.

Section TrapFlags.

Variables (instr : Z) (running : bool) (s : machine).
Hypothesis Hwf : wf_machine s = true.



End TrapFlags.





(** The three results a step of a flag-defining instruction can have, on
    the blank machine: ADD R0, R0, #-1 gives 0xFFFF and the flag N; LD R0,
    #1 loads a zero word and gives the flag Z; LDR R0, R0, #-1 reads address
    0xFFFF and has no result. *)
Example flags_follow_result_runs :
  still_running 1 (one_instr 0x103F) = true /\
  reg (state_after 1 (one_instr 0x103F)) R_R0 = 0xFFFF /\
  reg (state_after 1 (one_instr 0x103F)) R_COND = FL_NEG /\
  still_running 1 (one_instr 0x2001) = true /\
  reg (state_after 1 (one_instr 0x2001)) R_R0 = 0 /\
  reg (state_after 1 (one_instr 0x2001)) R_COND = FL_ZRO /\
  still_running 1 (one_instr 0x603F) = false.
Proof. repeat split; vm_compute; reflexivity. Qed.

(** * The program counter *)

Section DelayedPC.

Variables (s s1 : machine) (instr : Z).
Hypothesis Hwf : wf_machine s = true.
Hypothesis Hfetch : fetch s = Some (instr, s1).

Let Hpc : reg s1 R_PC = next_pc s := fetch_pc s s1 instr Hwf Hfetch.

Lemma fetch_gpr : reg s1 (Z.land (Z.shiftr instr 9) 0x7) = reg s (Z.land (Z.shiftr instr 9) 0x7).
Proof using Hwf Hfetch.
  pose proof (field3 (Z.shiftr instr 9)) as Hb.
  apply (fetch_reg s s1 instr Hwf Hfetch); unfold R_PC; lia.
Qed.

Lemma step_br :
  Z.shiftr instr 12 = OP_BR ->
  truthy (Z.land (Z.land (Z.shiftr instr 9) 0x7) (reg s R_COND)) = true ->
  step s = Some (Running (set_reg R_PC
             (u16 (next_pc s + sign_extend (Z.land instr 0x1ff) 9)) s1)).
Proof using Hwf Hfetch Hpc.
  intros Hop Hc. rewrite (step_fetch _ _ _ Hfetch), execute_br by exact Hop.
  unfold cmd_br.
  rewrite (fetch_reg s s1 instr Hwf Hfetch R_COND) by (unfold R_COND, R_PC; lia).
  rewrite Hc, Hpc. reflexivity.
Qed.

Lemma step_ld :
  Z.shiftr instr 12 = OP_LD ->
  step s = continue
    ('(v, s2) ← mem_read (u16 (next_pc s + sign_extend (Z.land instr 0x1ff) 9)) s1;
     Some (update_flags (Z.land (Z.shiftr instr 9) 0x7)
             (set_reg (Z.land (Z.shiftr instr 9) 0x7) v s2))).
Proof using Hwf Hfetch Hpc.
  intros Hop. rewrite (step_fetch _ _ _ Hfetch), execute_ld by exact Hop.
  unfold cmd_ld. rewrite Hpc. reflexivity.
Qed.

Lemma step_ldi :
  Z.shiftr instr 12 = OP_LDI ->
  step s = continue
    ('(a, s2) ← mem_read (u16 (next_pc s + sign_extend (Z.land instr 0x1ff) 9)) s1;
     '(v, s3) ← mem_read a s2;
     Some (update_flags (Z.land (Z.shiftr instr 9) 0x7)
             (set_reg (Z.land (Z.shiftr instr 9) 0x7) v s3))).
Proof using Hwf Hfetch Hpc.
  intros Hop. rewrite (step_fetch _ _ _ Hfetch), execute_ldi by exact Hop.
  unfold cmd_ldi. rewrite Hpc. reflexivity.
Qed.

Lemma step_lea :
  Z.shiftr instr 12 = OP_LEA ->
  step s = Some (Running
    (update_flags (Z.land (Z.shiftr instr 9) 0x7)
       (set_reg (Z.land (Z.shiftr instr 9) 0x7)
          (u16 (next_pc s + sign_extend (Z.land instr 0x1ff) 9)) s1))).
Proof using Hwf Hfetch Hpc.
  intros Hop. rewrite (step_fetch _ _ _ Hfetch), execute_lea by exact Hop.
  unfold cmd_lea. rewrite Hpc. reflexivity.
Qed.

Lemma step_st :
  Z.shiftr instr 12 = OP_ST ->
  step s = continue
    (mem_write (u16 (next_pc s + sign_extend (Z.land instr 0x1ff) 9))
       (reg s (Z.land (Z.shiftr instr 9) 0x7)) s1).
Proof using Hwf Hfetch Hpc.
  intros Hop. rewrite (step_fetch _ _ _ Hfetch), execute_st by exact Hop.
  unfold cmd_st. rewrite Hpc, fetch_gpr. reflexivity.
Qed.

Lemma step_sti :
  Z.shiftr instr 12 = OP_STI ->
  step s = continue
    ('(a, s2) ← mem_read (u16 (next_pc s + sign_extend (Z.land instr 0x1ff) 9)) s1;
     mem_write a (reg s (Z.land (Z.shiftr instr 9) 0x7)) s2).
Proof using Hwf Hfetch Hpc.
  intros Hop. rewrite (step_fetch _ _ _ Hfetch), execute_sti by exact Hop.
  unfold cmd_sti. rewrite Hpc. f_equal.
  destruct (mem_read _ s1) as [[a s2]|] eqn:Hr; [|reflexivity]. simpl.
  rewrite (mem_read_reg _ _ _ _ _ (fetch_wf _ _ _ Hwf Hfetch) Hr).
  rewrite fetch_gpr. reflexivity.
Qed.

Lemma step_jsr_long :
  Z.shiftr instr 12 = OP_JSR ->
  truthy (Z.land (Z.shiftr instr 11) 1) = true ->
  step s = Some (Running
    (set_reg R_PC (u16 (next_pc s + sign_extend (Z.land instr 0x7ff) 11))
       (set_reg R_R7 (next_pc s) s1))).
Proof using Hwf Hfetch Hpc.
  intros Hop Hl. rewrite (step_fetch _ _ _ Hfetch), execute_jsr by exact Hop.
  unfold cmd_jsr. rewrite Hl.
  rewrite reg_set_reg_ne by (unfold R_R7, R_PC; lia).
  rewrite Hpc. reflexivity.
Qed.

End DelayedPC.

(** [C2] A step increments [R_PC] right after the fetch and before the
    handler runs: the handler is entered with [R_PC] at the address of the
    next instruction, and BR, LD, LDI, LEA, ST, STI and JSR all form their
    address as that address plus the sign-extended offset. *)
Theorem delayed_pc (s : machine) (instr : Z) :
  wf_machine s = true ->
  fetched_instr s = Some instr ->
  exists s1,
    fetch s = Some (instr, s1) /\
    reg s1 R_PC = next_pc s /\
    step s = execute instr s1 /\
    pc_relative_step s s1 instr.
Proof.
  intros Hwf Hf. apply fetched_instr_fetch in Hf as [s1 Hf]. exists s1.
  split; [exact Hf|].
  split; [exact (fetch_pc _ _ _ Hwf Hf)|].
  split; [exact (step_fetch _ _ _ Hf)|].
  unfold pc_relative_step. cbv zeta.
  split; [exact (step_br _ _ _ Hwf Hf)|].
  split; [exact (step_ld _ _ _ Hwf Hf)|].
  split; [exact (step_ldi _ _ _ Hwf Hf)|].
  split; [exact (step_lea _ _ _ Hwf Hf)|].
  split; [exact (step_st _ _ _ Hwf Hf)|].
  split; [exact (step_sti _ _ _ Hwf Hf)|].
  exact (step_jsr_long _ _ _ Hwf Hf).
Qed.

(** LEA R0, #2 at 0x3000 computes 0x3001 + 2. *)
Lemma delayed_pc_witness :
  exists s1,
    fetch (one_instr 0xE002) = Some (0xE002, s1) /\
    reg s1 R_PC = next_pc (one_instr 0xE002) /\
    step (one_instr 0xE002) = execute 0xE002 s1 /\
    pc_relative_step (one_instr 0xE002) s1 0xE002.
Proof.
  apply (delayed_pc (one_instr 0xE002) 0xE002); vm_compute; reflexivity.
Defined.

(** * Subroutine calls *)

(** [C10] JSRR with base register 7: [R_R7] receives the incremented PC
    before the base register is read, so the jump goes to the address of the
    instruction after the JSRR, whatever [R_R7] held before. *)
Theorem jsrr_through_r7 (s : machine) (instr : Z) :
  wf_machine s = true ->
  fetched_instr s = Some instr ->
  Z.shiftr instr 12 = OP_JSR ->
  Z.land (Z.shiftr instr 11) 1 = 0 ->
  Z.land (Z.shiftr instr 6) 0x7 = R_R7 ->
  exists s',
    step s = Some (Running s') /\
    reg s' R_PC = next_pc s /\
    reg s' R_R7 = next_pc s.
Proof.
  intros Hwf Hf Hop Hlong Hbase. apply fetched_instr_fetch in Hf as [s1 Hf].
  pose proof (wf_registers_length _ (fetch_wf _ _ _ Hwf Hf)) as Hlen.
  rewrite (step_fetch _ _ _ Hf), execute_jsr by exact Hop.
  eexists. split; [reflexivity|].
  unfold cmd_jsr. rewrite Hlong, Hbase.
  change (truthy 0) with false. cbv iota.
  rewrite (reg_set_reg R_R7) by (unfold R_R7, R_COUNT; lia || exact Hlen).
  rewrite (fetch_pc _ _ _ Hwf Hf). split.
  - apply reg_set_reg; [unfold R_PC, R_COUNT; lia|].
    rewrite length_set_reg. exact Hlen.
  - rewrite reg_set_reg_ne by (unfold R_PC, R_R7; lia).
    apply reg_set_reg; [unfold R_R7, R_COUNT; lia | exact Hlen].
Qed.

(** JSRR R7 at 0x3000 with [R_R7] = 0 continues at 0x3001. *)
Lemma jsrr_through_r7_witness :
  exists s',
    step (one_instr 0x41C0) = Some (Running s') /\
    reg s' R_PC = next_pc (one_instr 0x41C0) /\
    reg s' R_R7 = next_pc (one_instr 0x41C0).
Proof.
  apply (jsrr_through_r7 (one_instr 0x41C0) 0x41C0); vm_compute; reflexivity.
Defined.

(** * The loop *)

Section Run.

Lemma run_add k n s0 s :
  run k s0 = Some (Running s) -> run (k + n) s0 = run n s.
Proof.
  revert s0. induction k as [|k IH]; intros s0; simpl.
  - intros [= ->]. reflexivity.
  - destruct (step s0) as [[s'| |]|]; try discriminate. apply IH.
Qed.

Lemma run_stop n s o :
  step s = Some o -> (forall s', o <> Running s') -> run (S n) s = Some o.
Proof.
  intros Hs Ho. simpl. rewrite Hs. destruct o; try reflexivity.
  exfalso. exact (Ho _ eq_refl).
Qed.

Lemma run_one s s' : run 1 s = Some (Running s') -> step s = Some (Running s').
Proof.
  unfold run. destruct (step s) as [[s2| |]|]; try discriminate.
  intros H. exact H.
Qed.

Lemma state_after_run n s :
  still_running n s = true -> run n s = Some (Running (state_after n s)).
Proof.
  unfold still_running, state_after.
  destruct (run n s) as [[s'| |]|]; try discriminate. reflexivity.
Qed.

End Run.

(** [C6] Wherever the loop stands, when the word it fetches has opcode RTI
    (8) or the reserved opcode (13) that turn ends in [abort()]: the outcome
    is [Aborted] with the state exactly as the fetch left it, it is not the
    [Halted] outcome of TRAP HALT, and no further turn runs however long the
    loop is allowed to go on. *)
Theorem illegal_opcode_aborts (k n : nat) (s0 s : machine) (instr : Z) :
  run k s0 = Some (Running s) ->
  fetched_instr s = Some instr ->
  Z.shiftr instr 12 = OP_RTI \/ Z.shiftr instr 12 = OP_RES ->
  exists s1,
    fetch s = Some (instr, s1) /\
    step s = Some (Aborted s1) /\
    run (k + S n) s0 = Some (Aborted s1) /\
    (forall s', run (k + S n) s0 <> Some (Halted s')).
Proof.
  intros Hk Hf Hop. apply fetched_instr_fetch in Hf as [s1 Hf]. exists s1.
  assert (Hs : step s = Some (Aborted s1)).
  { rewrite (step_fetch _ _ _ Hf).
    destruct Hop as [Hop|Hop]; [apply execute_rti | apply execute_res];
      exact Hop. }
  assert (Hr : run (k + S n) s0 = Some (Aborted s1)).
  { rewrite (run_add _ _ _ _ Hk). apply run_stop; [exact Hs|]. discriminate. }
  split; [exact Hf|]. split; [exact Hs|]. split; [exact Hr|].
  intros s'. rewrite Hr. discriminate.
Qed.

(** ADD R0, R0, #1 followed by a word with the reserved opcode: the second
    turn aborts. *)
Lemma illegal_opcode_aborts_witness :
  exists s1,
    fetch (state_after 1 (two_instr 0x1021 0xD000)) = Some (0xD000, s1) /\
    step (state_after 1 (two_instr 0x1021 0xD000)) = Some (Aborted s1) /\
    run (1 + 4) (two_instr 0x1021 0xD000) = Some (Aborted s1) /\
    (forall s', run (1 + 4) (two_instr 0x1021 0xD000) <> Some (Halted s')).
Proof.
  apply (illegal_opcode_aborts 1 3 (two_instr 0x1021 0xD000)
           (state_after 1 (two_instr 0x1021 0xD000)) 0xD000).
  - apply state_after_run. vm_compute. reflexivity.
  - vm_compute. reflexivity.
  - right. vm_compute. reflexivity.
Defined.

(** * Unknown trap vectors *)

(** [C5], as amended: a TRAP whose vector is none of 0x20..0x25 still links:
    [R_R7] receives the incremented PC.  Apart from that the state is as the
    fetch left it (every other register, the flags, the memory and the
    console) and the loop goes on. *)
Theorem unknown_trap_links_only (s : machine) (instr : Z) :
  wf_machine s = true ->
  fetched_instr s = Some instr ->
  Z.shiftr instr 12 = OP_TRAP ->
  ~ (TRAP_GETC <= Z.land instr 0xFF <= TRAP_HALT) ->
  exists s1 s',
    fetch s = Some (instr, s1) /\
    step s = Some (Running s') /\
    reg s' R_R7 = next_pc s /\
    (forall r, 0 <= r < R_COUNT -> r <> R_R7 -> reg s' r = reg s1 r) /\
    memory s' = memory s1 /\
    io s' = io s1.
Proof.
  intros Hwf Hf Hop Hv. apply fetched_instr_fetch in Hf as [s1 Hf].
  exists s1, (linked s1). split; [exact Hf|].
  split.
  { rewrite (step_fetch _ _ _ Hf), execute_trap by exact Hop.
    rewrite cmd_trap_unknown by exact Hv. reflexivity. }
  split.
  { unfold linked. rewrite (fetch_pc _ _ _ Hwf Hf).
    apply reg_set_reg; [unfold R_R7, R_COUNT; lia|].
    apply wf_registers_length. exact (fetch_wf _ _ _ Hwf Hf). }
  split; [|split; reflexivity].
  intros r Hr Hne. unfold linked. apply reg_set_reg_ne; unfold R_R7 in *; lia.
Qed.

(** TRAP with vector 0 at 0x3000. *)
Lemma unknown_trap_links_only_witness :
  exists s1 s',
    fetch (one_instr 0xF000) = Some (0xF000, s1) /\
    step (one_instr 0xF000) = Some (Running s') /\
    reg s' R_R7 = next_pc (one_instr 0xF000) /\
    (forall r, 0 <= r < R_COUNT -> r <> R_R7 -> reg s' r = reg s1 r) /\
    memory s' = memory s1 /\
    io s' = io s1.
Proof.
  apply (unknown_trap_links_only (one_instr 0xF000) 0xF000).
  - vm_compute. reflexivity.
  - vm_compute. reflexivity.
  - vm_compute. reflexivity.
  - vm_compute. intros [H _]. apply H. reflexivity.
Defined.

(** [C5], as stated, fails: on the blank machine with TRAP vector 0 at
    0x3000, register 7 is 0 after the fetch and 0x3001 after the step. *)
Lemma unknown_trap_overwrites_r7 :
  fetched_instr (one_instr 0xF000) = Some 0xF000 /\
  Z.shiftr 0xF000 12 = OP_TRAP /\
  Z.land 0xF000 0xFF = 0 /\
  (fun p => reg p.2 R_R7) <$> fetch (one_instr 0xF000) = Some 0 /\
  still_running 1 (one_instr 0xF000) = true /\
  reg (state_after 1 (one_instr 0xF000)) R_R7 = 0x3001 /\
  ~ (forall s1 s',
       fetch (one_instr 0xF000) = Some (0xF000, s1) ->
       step (one_instr 0xF000) = Some (Running s') ->
       reg s' R_R7 = reg s1 R_R7).
Proof.
  assert (H0 : fetched_instr (one_instr 0xF000) = Some 0xF000)
    by (vm_compute; reflexivity).
  assert (H1 : (fun p => reg p.2 R_R7) <$> fetch (one_instr 0xF000) = Some 0)
    by (vm_compute; reflexivity).
  assert (H2 : still_running 1 (one_instr 0xF000) = true)
    by (vm_compute; reflexivity).
  assert (H3 : reg (state_after 1 (one_instr 0xF000)) R_R7 = 0x3001)
    by (vm_compute; reflexivity).
  split; [exact H0|]. split; [reflexivity|]. split; [reflexivity|].
  split; [exact H1|]. split; [exact H2|]. split; [exact H3|].
  intros Hall.
  apply fmap_Some in H1 as ([i s1] & Hf & Hv).
  apply fmap_Some in H0 as ([i' s1'] & Hf' & Hi).
  rewrite Hf in Hf'. injection Hf' as <- <-.
  change (0xF000 = i) in Hi. subst i.
  apply state_after_run, run_one in H2.
  specialize (Hall _ _ Hf H2).
  change (0 = reg s1 R_R7) in Hv. rewrite H3, <- Hv in Hall. discriminate.
Qed.

(** * TRAP PUTSP *)

Section Putsp.

Lemma emit_nil s : emit [] s = s.
Proof.
  destruct s as [m r [p i o]]. unfold emit, with_io. simpl.
  rewrite app_nil_r. reflexivity.
Qed.

Lemma emit_emit a b s : emit b (emit a s) = emit (a ++ b) s.
Proof. unfold emit, with_io. simpl. rewrite app_assoc. reflexivity. Qed.

Lemma putc_emit c s : putc c s = emit [c mod 256] s.
Proof. reflexivity. Qed.

(** One turn of the loop body writes the characters of the word. *)
Lemma putsp_word w s :
  word w ->
  (if truthy (to_char (Z.shiftr w 8))
   then putc (to_char (Z.shiftr w 8)) (putc (to_char (Z.land w 0xff)) s)
   else putc (to_char (Z.land w 0xff)) s) = emit (word_chars w) s.
Proof.
  intros Hw. pose proof (word_low_byte w) as Hlo.
  pose proof (word_high_byte w Hw) as Hhi.
  rewrite !putc_emit, emit_emit, !to_char_byte by assumption.
  unfold word_chars. destruct (Z.eqb_spec (Z.shiftr w 8) 0) as [E|E].
  - rewrite E. reflexivity.
  - assert (Ht : truthy (to_char (Z.shiftr w 8)) = true).
    { apply truthy_true. rewrite to_char_zero by exact Hhi. exact E. }
    rewrite Ht. reflexivity.
Qed.

Lemma putsp_loop_spec pre post s :
  Forall word pre -> forallb truthy pre = true ->
  putsp_loop (pre ++ 0 :: post) s = Some (emit (packed_chars pre) s).
Proof.
  revert s. induction pre as [|w pre IH]; intros s Hw Hnz.
  - simpl. rewrite emit_nil. reflexivity.
  - simpl in Hnz. apply andb_true_iff in Hnz as [Hw0 Hnz].
    apply Forall_cons in Hw as [Hww Hw].
    simpl. rewrite Hw0. rewrite (putsp_word w s Hww).
    rewrite IH by assumption. rewrite emit_emit. reflexivity.
Qed.

Lemma string_at_split (l pre : list Z) :
  take (S (length pre)) l = pre ++ [0] ->
  l = pre ++ 0 :: drop (S (length pre)) l.
Proof.
  intros H. rewrite <- (take_drop (S (length pre)) l) at 1.
  rewrite H, <- app_assoc. reflexivity.
Qed.

End Putsp.

(** [C4], as amended: TRAP PUTSP writes the characters of the words from the
    address in [R_R0] up to the first zero word, for each word its low byte
    and then its high byte unless that is zero.  A word with a zero low byte
    and a nonzero high byte does not end the sequence: its low byte is
    written as a NUL character, its high byte follows, and the output goes
    on with the next word.  Nothing but the terminal output and the link in
    [R_R7] changes. *)
Theorem putsp_output (s : machine) (instr : Z) (running : bool) (pre : list Z) :
  wf_machine s = true ->
  Z.land instr 0xFF = TRAP_PUTSP ->
  take (S (length pre)) (drop (Z.to_nat (reg s R_R0)) (memory s)) = pre ++ [0] ->
  forallb truthy pre = true ->
  cmd_trap instr running s = Some (running, emit (packed_chars pre) (linked s))
  /\ (forall w, In w pre -> Z.land w 0xff = 0 -> Z.shiftr w 8 <> 0 ->
        word_chars w = [0; Z.shiftr w 8]).
Proof.
  intros Hwf Hv Hstr Hnz. split.
  - rewrite cmd_trap_putsp by exact Hv.
    unfold linked at 1. rewrite reg_set_reg_ne by (unfold R_R7, R_R0; lia).
    apply string_at_split in Hstr.
    assert (Hw : Forall word pre).
    { apply wf_machine_spec in Hwf as (_ & Hall & _).
      apply (Forall_drop _ (Z.to_nat (reg s R_R0))) in Hall.
      rewrite Hstr in Hall. apply Forall_app in Hall. tauto. }
    rewrite Hstr, putsp_loop_spec by assumption. reflexivity.
  - intros w _ Hlo Hhi. unfold word_chars. rewrite Hlo.
    apply Z.eqb_neq in Hhi. rewrite Hhi. reflexivity.
Qed.

(** On [putsp_example] the two words before the zero word give NUL, 'A'
    and 'B'. *)
Lemma putsp_output_witness :
  cmd_trap 0xF024 true putsp_example
    = Some (true, emit (packed_chars [0x4100; 0x0042]) (linked putsp_example))
  /\ (forall w, In w [0x4100; 0x0042] -> Z.land w 0xff = 0 ->
        Z.shiftr w 8 <> 0 -> word_chars w = [0; Z.shiftr w 8]).
Proof.
  apply (putsp_output putsp_example 0xF024 true [0x4100; 0x0042]);
    vm_compute; reflexivity.
Defined.

(** [C4], as stated, fails: on [putsp_example] the word 0x4100 has a zero
    low byte and a nonzero high byte, yet the output does not end there: NUL
    and 'A' are written and then the 'B' of the next word. *)
Lemma putsp_not_truncated :
  fetched_instr putsp_example = Some 0xF024 /\
  reg putsp_example R_R0 = 0x4000 /\
  take 3 (drop (Z.to_nat 0x4000) (memory putsp_example)) = [0x4100; 0x0042; 0] /\
  Z.land 0x4100 0xff = 0 /\
  Z.shiftr 0x4100 8 = 0x41 /\
  still_running 1 putsp_example = true /\
  output (io (state_after 1 putsp_example)) = [0; 0x41; 0x42] /\
  output (io (state_after 1 putsp_example))
    <> output (io putsp_example)
       ++ putsp_claimed (drop (Z.to_nat (reg putsp_example R_R0))
                           (memory putsp_example)).
Proof.
  split; [vm_compute; reflexivity|].
  split; [vm_compute; reflexivity|].
  split; [vm_compute; reflexivity|].
  split; [reflexivity|]. split; [reflexivity|].
  split; [vm_compute; reflexivity|].
  split; [vm_compute; reflexivity|].
  vm_compute. discriminate.
Qed.

(** * The keyboard registers *)

Section Keyboard.

Lemma check_key_eq s :
  check_key s =
    (hd false (polls (io s)),
     with_io (Console (tail (polls (io s))) (input (io s)) (output (io s))) s).
Proof. destruct s as [m r [[|b p] i o]]; reflexivity. Qed.

Lemma getchar_eq s :
  getchar s =
    (hd EOF (input (io s)),
     with_io (Console (polls (io s)) (tail (input (io s))) (output (io s))) s).
Proof. destruct s as [m r [p [|c i] o]]; reflexivity. Qed.

Lemma mem_read_kbdr t v :
  load MR_KBDR t = Some v -> mem_read MR_KBDR t = Some (v, t).
Proof.
  intros H. rewrite mem_read_plain by discriminate. rewrite H. reflexivity.
Qed.

Lemma kbsr_poll_idle s :
  (check_key s).1 = false ->
  kbsr_poll s =
    poke MR_KBSR 0
      (with_io (Console (tail (polls (io s))) (input (io s)) (output (io s))) s).
Proof.
  unfold kbsr_poll. rewrite check_key_eq. simpl. intros ->. reflexivity.
Qed.

Lemma kbsr_poll_ready s :
  (check_key s).1 = true ->
  kbsr_poll s =
    poke MR_KBDR (u16 (getchar s).1)
      (poke MR_KBSR (Z.shiftl 1 15)
         (with_io (Console (tail (polls (io s))) (tail (input (io s)))
                     (output (io s))) s)).
Proof.
  unfold kbsr_poll. rewrite check_key_eq. simpl. intros ->.
  rewrite !getchar_eq. reflexivity.
Qed.

End Keyboard.

(** [C7] A read of [MR_KBSR] polls the keyboard.  With no key ready it
    stores 0 there (bit 15 clear) and leaves the data register and the input
    alone; with a key ready it stores a word with bit 15 set, takes one
    character from the input and stores it at [MR_KBDR].  A read of
    [MR_KBDR] never polls: it returns the word stored there and changes
    nothing, so it keeps returning the staged character until [MR_KBSR] is
    read again. *)
Theorem keyboard_registers (s : machine) (ready : bool) (c : Z) :
  wf_machine s = true ->
  (check_key s).1 = ready ->
  (getchar s).1 = c ->
  kbsr_read_spec s ready c.
Proof.
  intros Hwf Hready Hc. pose proof (wf_memory_length s Hwf) as Hlen.
  split; [|exact mem_read_kbdr].
  exists (kbsr_poll s). rewrite mem_read_kbsr. destruct ready.
  - rewrite (kbsr_poll_ready s Hready), Hc.
    set (s1 := with_io _ s).
    assert (Hs : load MR_KBSR (poke MR_KBDR (u16 c)
                   (poke MR_KBSR (Z.shiftl 1 15) s1)) = Some (Z.shiftl 1 15)).
    { rewrite load_poke_ne by discriminate.
      apply load_poke; [split; [discriminate | reflexivity] | exact Hlen]. }
    assert (Hd : load MR_KBDR (poke MR_KBDR (u16 c)
                   (poke MR_KBSR (Z.shiftl 1 15) s1)) = Some (u16 c)).
    { apply load_poke; [split; [discriminate | reflexivity]|].
      rewrite length_poke. exact Hlen. }
    rewrite Hs. simpl. repeat split; try reflexivity; try assumption.
    apply mem_read_kbdr. exact Hd.
  - rewrite (kbsr_poll_idle s Hready).
    set (s1 := with_io _ s).
    assert (Hs : load MR_KBSR (poke MR_KBSR 0 s1) = Some 0).
    { apply load_poke; [split; [discriminate | reflexivity] | exact Hlen]. }
    rewrite Hs. simpl. repeat split; try reflexivity; try assumption.
    rewrite load_poke_ne by discriminate. reflexivity.
Qed.

(** On [keyboard_example] the key is ready and the character is 'a'. *)
Lemma keyboard_registers_witness : kbsr_read_spec keyboard_example true 0x61.
Proof.
  apply (keyboard_registers keyboard_example true 0x61);
    vm_compute; reflexivity.
Defined.

(** * Wrap-around *)

Section Wrap.

Variables (s : machine) (instr : Z).
Hypothesis Hwf : wf_machine s = true.

Lemma written_result dr v :
  0 <= dr < 8 -> reg (update_flags dr (set_reg dr v s)) dr = v.
Proof using Hwf.
  intros Hdr. rewrite reg_update_flags by (unfold R_COND; lia).
  apply reg_set_reg; [unfold R_COUNT; lia|].
  apply wf_registers_length. exact Hwf.
Qed.


Lemma cmd_add_imm_mode :
  Z.land (Z.shiftr instr 5) 0x1 <> 0 ->
  reg (cmd_add instr s) (Z.land (Z.shiftr instr 9) 0x7)
  = u16 (reg s (Z.land (Z.shiftr instr 6) 0x7)
         + sign_extend (Z.land instr 0x1f) 5).
Proof using Hwf.
  intros Hm. unfold cmd_add. apply truthy_true in Hm. rewrite Hm.
  apply written_result, field3.
Qed.





End Wrap.



(** 0xFFFF + 1 is 0x0000: ADD R0, R0, #1 on [wrap_example]. *)
Example add_ffff_one :
  reg wrap_example R_R0 = 0xFFFF /\
  fetched_instr wrap_example = Some 0x1021 /\
  reg (state_after 1 wrap_example) R_R0 = 0.
Proof. repeat split; vm_compute; reflexivity. Qed.

(** * The bounds of the memory array *)

Section Bounds.

(** Below [MEMORY_MAX], and away from the keyboard status register, a word
    written is the word read back, and no other word changes. *)
Lemma write_then_read a v s :
  wf_machine s = true -> 0 <= a < MEMORY_MAX -> a <> MR_KBSR ->
  exists s',
    mem_write a v s = Some s' /\
    mem_read a s' = Some (v, s') /\
    (forall b, 0 <= b -> b <> a -> load b s' = load b s).
Proof.
  intros Hwf Ha Hk. exists (poke a v s). split; [|split].
  - apply store_Some. lia.
  - rewrite mem_read_plain by exact Hk.
    rewrite load_poke; [reflexivity | exact Ha |].
    apply wf_memory_length. exact Hwf.
  - intros b Hb Hne. apply load_poke_ne; [lia | exact Hb | congruence].
Qed.

Lemma load_top s : load 0xFFFF s = None.
Proof. reflexivity. Qed.

End Bounds.

(** [C1] The array [memory] has [MEMORY_MAX] = 65535 elements, so address
    0xFFFF is outside it: neither a write nor a read of that address has a
    defined result, in any state, and a program that stores to 0xFFFF (STR
    R0, R1, #0 with 0xFFFF in R1) leaves the step without one. *)
Theorem top_address_out_of_bounds (v : Z) (s : machine) :
  MEMORY_MAX = 0xFFFF /\
  mem_write 0xFFFF v s = None /\
  mem_read 0xFFFF s = None /\
  fetched_instr top_store_example = Some 0x7040 /\
  wf_machine top_store_example = true /\
  step top_store_example = None.
Proof.
  split; [reflexivity|]. split; [reflexivity|]. split; [reflexivity|].
  split; [vm_compute; reflexivity|]. split; vm_compute; reflexivity.
Qed.

(** * Case analysis on the instruction word *)

Section Cases.

Variables (instr : Z) (s : machine).

Lemma cmd_trap_out running :
  Z.land instr 0xFF = TRAP_OUT ->
  cmd_trap instr running s
  = Some (running, putc (to_char (reg (linked s) R_R0)) (linked s)).
Proof. intros H. unfold cmd_trap. rewrite H. reflexivity. Qed.

Lemma cmd_trap_puts running :
  Z.land instr 0xFF = TRAP_PUTS ->
  cmd_trap instr running s =
    (s' ← puts_loop (drop (Z.to_nat (reg (linked s) R_R0)) (memory s))
                    (linked s);
     Some (running, s')).
Proof. intros H. unfold cmd_trap. rewrite H. reflexivity. Qed.

(** A property holds of the result of [cmd_trap] when it holds of each arm
    of the [switch] and of the state that falls through it. *)
Lemma cmd_trap_elim (P : option (bool * machine) -> Prop) running :
  (Z.land instr 0xFF = TRAP_GETC ->
   P (Some (running, update_flags R_R0
                       (set_reg R_R0 (u16 (getchar (linked s)).1)
                          (getchar (linked s)).2)))) ->
  (Z.land instr 0xFF = TRAP_OUT ->
   P (Some (running, putc (to_char (reg (linked s) R_R0)) (linked s)))) ->
  (Z.land instr 0xFF = TRAP_PUTS ->
   P (s' ← puts_loop (drop (Z.to_nat (reg (linked s) R_R0)) (memory s))
                     (linked s);
      Some (running, s'))) ->
  (Z.land instr 0xFF = TRAP_IN ->
   P (Some (running, update_flags R_R0
                       (set_reg R_R0 (u16 (to_char (trap_in_read s).1))
                          (putc (to_char (trap_in_read s).1)
                             (trap_in_read s).2))))) ->
  (Z.land instr 0xFF = TRAP_PUTSP ->
   P (s' ← putsp_loop (drop (Z.to_nat (reg (linked s) R_R0)) (memory s))
                      (linked s);
      Some (running, s'))) ->
  (Z.land instr 0xFF = TRAP_HALT ->
   P (Some (false, print ("HALT" ++ String (ascii_of_nat 10) "") (linked s)))) ->
  (~ (TRAP_GETC <= Z.land instr 0xFF <= TRAP_HALT) ->
   P (Some (running, linked s))) ->
  P (cmd_trap instr running s).
Proof.
  intros Hgetc Hout Hputs Hin Hputsp Hhalt Hother.
  destruct (Z.eq_dec (Z.land instr 0xFF) TRAP_GETC) as [E|N1].
  { rewrite cmd_trap_getc by exact E. auto. }
  destruct (Z.eq_dec (Z.land instr 0xFF) TRAP_OUT) as [E|N2].
  { rewrite cmd_trap_out by exact E. auto. }
  destruct (Z.eq_dec (Z.land instr 0xFF) TRAP_PUTS) as [E|N3].
  { rewrite cmd_trap_puts by exact E. auto. }
  destruct (Z.eq_dec (Z.land instr 0xFF) TRAP_IN) as [E|N4].
  { rewrite cmd_trap_in by exact E. auto. }
  destruct (Z.eq_dec (Z.land instr 0xFF) TRAP_PUTSP) as [E|N5].
  { rewrite cmd_trap_putsp by exact E. auto. }
  destruct (Z.eq_dec (Z.land instr 0xFF) TRAP_HALT) as [E|N6].
  { rewrite cmd_trap_halt by exact E. auto. }
  assert (Hv : ~ (TRAP_GETC <= Z.land instr 0xFF <= TRAP_HALT)).
  { unfold TRAP_GETC, TRAP_OUT, TRAP_PUTS, TRAP_IN, TRAP_PUTSP, TRAP_HALT in *.
    lia. }
  rewrite cmd_trap_unknown by exact Hv. auto.
Qed.

(** The same for the [switch] of the loop. *)
Lemma execute_elim (P : option outcome -> Prop) :
  (Z.shiftr instr 12 = OP_ADD -> P (Some (Running (cmd_add instr s)))) ->
  (Z.shiftr instr 12 = OP_AND -> P (Some (Running (cmd_and instr s)))) ->
  (Z.shiftr instr 12 = OP_NOT -> P (Some (Running (cmd_not instr s)))) ->
  (Z.shiftr instr 12 = OP_BR -> P (Some (Running (cmd_br instr s)))) ->
  (Z.shiftr instr 12 = OP_JMP -> P (Some (Running (cmd_jmp instr s)))) ->
  (Z.shiftr instr 12 = OP_JSR -> P (Some (Running (cmd_jsr instr s)))) ->
  (Z.shiftr instr 12 = OP_LD -> P (continue (cmd_ld instr s))) ->
  (Z.shiftr instr 12 = OP_LDI -> P (continue (cmd_ldi instr s))) ->
  (Z.shiftr instr 12 = OP_LDR -> P (continue (cmd_ldr instr s))) ->
  (Z.shiftr instr 12 = OP_LEA -> P (Some (Running (cmd_lea instr s)))) ->
  (Z.shiftr instr 12 = OP_ST -> P (continue (cmd_st instr s))) ->
  (Z.shiftr instr 12 = OP_STI -> P (continue (cmd_sti instr s))) ->
  (Z.shiftr instr 12 = OP_STR -> P (continue (cmd_str instr s))) ->
  (Z.shiftr instr 12 = OP_TRAP ->
   P ('(running, s') ← cmd_trap instr true s;
      Some (if (running : bool) then Running s' else Halted s'))) ->
  (Z.shiftr instr 12 = OP_RTI \/ Z.shiftr instr 12 = OP_RES
   \/ Z.shiftr instr 12 < 0 \/ 15 < Z.shiftr instr 12 ->
   P (Some (Aborted s))) ->
  P (execute instr s).
Proof.
  intros Hadd Hand Hnot Hbr Hjmp Hjsr Hld Hldi Hldr Hlea Hst Hsti Hstr Htrap
    Hbad.
  destruct (Z.eq_dec (Z.shiftr instr 12) OP_ADD) as [E|N1].
  { rewrite execute_add by exact E. auto. }
  destruct (Z.eq_dec (Z.shiftr instr 12) OP_AND) as [E|N2].
  { rewrite execute_and by exact E. auto. }
  destruct (Z.eq_dec (Z.shiftr instr 12) OP_NOT) as [E|N3].
  { rewrite execute_not by exact E. auto. }
  destruct (Z.eq_dec (Z.shiftr instr 12) OP_BR) as [E|N4].
  { rewrite execute_br by exact E. auto. }
  destruct (Z.eq_dec (Z.shiftr instr 12) OP_JMP) as [E|N5].
  { rewrite execute_jmp by exact E. auto. }
  destruct (Z.eq_dec (Z.shiftr instr 12) OP_JSR) as [E|N6].
  { rewrite execute_jsr by exact E. auto. }
  destruct (Z.eq_dec (Z.shiftr instr 12) OP_LD) as [E|N7].
  { rewrite execute_ld by exact E. auto. }
  destruct (Z.eq_dec (Z.shiftr instr 12) OP_LDI) as [E|N8].
  { rewrite execute_ldi by exact E. auto. }
  destruct (Z.eq_dec (Z.shiftr instr 12) OP_LDR) as [E|N9].
  { rewrite execute_ldr by exact E. auto. }
  destruct (Z.eq_dec (Z.shiftr instr 12) OP_LEA) as [E|N10].
  { rewrite execute_lea by exact E. auto. }
  destruct (Z.eq_dec (Z.shiftr instr 12) OP_ST) as [E|N11].
  { rewrite execute_st by exact E. auto. }
  destruct (Z.eq_dec (Z.shiftr instr 12) OP_STI) as [E|N12].
  { rewrite execute_sti by exact E. auto. }
  destruct (Z.eq_dec (Z.shiftr instr 12) OP_STR) as [E|N13].
  { rewrite execute_str by exact E. auto. }
  destruct (Z.eq_dec (Z.shiftr instr 12) OP_TRAP) as [E|N14].
  { rewrite execute_trap by exact E. auto. }
  assert (Hop : Z.shiftr instr 12 = OP_RTI \/ Z.shiftr instr 12 = OP_RES
                \/ Z.shiftr instr 12 < 0 \/ 15 < Z.shiftr instr 12).
  { unfold OP_ADD, OP_AND, OP_NOT, OP_BR, OP_JMP, OP_JSR, OP_LD, OP_LDI,
      OP_LDR, OP_LEA, OP_ST, OP_STI, OP_STR, OP_TRAP, OP_RTI, OP_RES in *.
    lia. }
  assert (Hx : execute instr s = Some (Aborted s)).
  { unfold execute.
    repeat match goal with
    | |- context [Z.shiftr instr 12 =? ?c] =>
        destruct (Z.eqb_spec (Z.shiftr instr 12) c) as [E|_];
        [exfalso; congruence|]
    end.
    reflexivity. }
  rewrite Hx. auto.
Qed.

End Cases.

(** * How the handlers change the state *)

Section Updates.

Lemma console_extends_refl c : console_extends c c.
Proof.
  repeat split; try (exists 0%nat; reflexivity).
  exists []. rewrite app_nil_r. reflexivity.
Qed.

Lemma console_extends_trans c1 c2 c3 :
  console_extends c1 c2 -> console_extends c2 c3 -> console_extends c1 c3.
Proof.
  intros ([k1 Hp1] & [j1 Hi1] & [o1 Ho1]) ([k2 Hp2] & [j2 Hi2] & [o2 Ho2]).
  repeat split.
  - exists (k1 + k2)%nat. rewrite Hp2, Hp1. apply drop_drop.
  - exists (j1 + j2)%nat. rewrite Hi2, Hi1. apply drop_drop.
  - exists (o1 ++ o2). rewrite Ho2, Ho1, app_assoc. reflexivity.
Qed.

Lemma updates_trans s1 s2 s3 : updates s1 s2 -> updates s2 s3 -> updates s1 s3.
Proof.
  induction 1; intros H23; eauto using updates.
Qed.

Lemma updates_set_reg r v s :
  0 <= r < R_COND -> word v -> updates s (set_reg r v s).
Proof. intros Hr Hv. eapply updates_reg; eauto using updates. Qed.

Lemma updates_poke a v s : word v -> updates s (poke a v s).
Proof. intros Hv. eapply updates_mem; eauto using updates. Qed.

Lemma updates_with_io c s :
  console_extends (io s) c -> updates s (with_io c s).
Proof. intros Hc. eapply updates_io; eauto using updates. Qed.

Lemma updates_update_flags r s : updates s (update_flags r s).
Proof.
  destruct (update_flags_set r s) as (f & Hf & ->).
  eapply updates_flag; [|apply updates_refl]. tauto.
Qed.

Lemma updates_store a v s s' : word v -> store a v s = Some s' -> updates s s'.
Proof.
  intros Hv. unfold store. destruct (a <? MEMORY_MAX); [|discriminate].
  intros [= <-]. apply updates_poke. exact Hv.
Qed.

Lemma updates_emit o s : updates s (emit o s).
Proof.
  apply updates_with_io. repeat split; try (exists 0%nat; reflexivity).
  exists o. reflexivity.
Qed.

Lemma updates_putc c s : updates s (putc c s).
Proof. apply (updates_emit [c mod 256]). Qed.

Lemma updates_print t s : updates s (print t s).
Proof. apply (updates_emit (bytes_of_string t)). Qed.

Lemma updates_check_key s : updates s (check_key s).2.
Proof.
  rewrite check_key_eq. apply updates_with_io. split; [|split].
  - exists 1%nat. simpl. destruct (polls (io s)); reflexivity.
  - exists 0%nat. reflexivity.
  - exists []. simpl. rewrite app_nil_r. reflexivity.
Qed.

Lemma updates_getchar s : updates s (getchar s).2.
Proof.
  rewrite getchar_eq. apply updates_with_io. split; [|split].
  - exists 0%nat. reflexivity.
  - exists 1%nat. simpl. destruct (input (io s)); reflexivity.
  - exists []. simpl. rewrite app_nil_r. reflexivity.
Qed.

Lemma updates_kbsr_poll s : updates s (kbsr_poll s).
Proof.
  unfold kbsr_poll. pose proof (updates_check_key s) as Hk.
  destruct (check_key s) as [ready s1]. simpl in Hk.
  apply (updates_trans _ _ _ Hk). destruct ready.
  - pose proof (updates_getchar (poke MR_KBSR (Z.shiftl 1 15) s1)) as Hg.
    destruct (getchar _) as [c s3]. simpl in Hg.
    apply (updates_trans _ (poke MR_KBSR (Z.shiftl 1 15) s1)).
    { apply updates_poke. change (Z.shiftl 1 15) with 32768.
      unfold word. lia. }
    apply (updates_trans _ _ _ Hg). apply updates_poke, u16_word.
  - apply updates_poke. unfold word. lia.
Qed.

Lemma updates_mem_read a s v s' : mem_read a s = Some (v, s') -> updates s s'.
Proof.
  destruct (Z.eq_dec a MR_KBSR) as [->|Hne].
  - rewrite mem_read_kbsr.
    destruct (load MR_KBSR (kbsr_poll s)); [|discriminate].
    simpl. intros [= _ <-]. apply updates_kbsr_poll.
  - rewrite mem_read_plain by exact Hne.
    destruct (load a s); [|discriminate].
    simpl. intros [= _ <-]. apply updates_refl.
Qed.

Lemma updates_puts_loop c s s' : puts_loop c s = Some s' -> updates s s'.
Proof.
  revert s. induction c as [|w c IH]; intros s; simpl; [discriminate|].
  destruct (truthy w).
  - intros H. eapply updates_trans; [apply updates_putc|]. apply IH, H.
  - intros [= <-]. apply updates_refl.
Qed.

Lemma updates_putsp_loop c s s' : putsp_loop c s = Some s' -> updates s s'.
Proof.
  revert s. induction c as [|w c IH]; intros s; simpl; [discriminate|].
  destruct (truthy w).
  - intros H. eapply updates_trans; [|apply IH, H].
    destruct (truthy _).
    + eapply updates_trans; apply updates_putc.
    + apply updates_putc.
  - intros [= <-]. apply updates_refl.
Qed.

(** What [updates] keeps. *)
Lemma updates_wf s s' : updates s s' -> wf_machine s = true -> wf_machine s' = true.
Proof.
  induction 1 as [s|r v s s' Hr Hv _ IH|f s s' Hf _ IH|a v s s' Hv _ IH
                 |c s s' Hc _ IH]; intros Hwf.
  - exact Hwf.
  - apply IH, wf_set_reg; assumption.
  - apply IH, wf_set_reg; [|exact Hwf].
    unfold word. destruct Hf as [->|[->| ->]]; vm_compute; split; congruence.
  - apply IH, wf_poke; assumption.
  - apply IH. exact Hwf.
Qed.

Lemma one_flag_spec s :
  one_flag s = true <->
  reg s R_COND = FL_POS \/ reg s R_COND = FL_ZRO \/ reg s R_COND = FL_NEG.
Proof.
  unfold one_flag. rewrite !orb_true_iff, !Z.eqb_eq. tauto.
Qed.

Lemma updates_one_flag s s' :
  updates s s' -> wf_machine s = true -> one_flag s = true ->
  one_flag s' = true.
Proof.
  induction 1 as [s|r v s s' Hr Hv H IH|f s s' Hf H IH|a v s s' Hv H IH
                 |c s s' Hc H IH]; intros Hwf Hone.
  - exact Hone.
  - apply IH; [apply wf_set_reg; assumption|].
    apply one_flag_spec. apply one_flag_spec in Hone.
    rewrite reg_set_reg_ne by (unfold R_COND in *; lia). exact Hone.
  - assert (Hw : word f).
    { unfold word. destruct Hf as [->|[->| ->]]; vm_compute; split; congruence. }
    apply IH; [apply wf_set_reg; assumption|].
    apply one_flag_spec.
    rewrite reg_set_reg; [exact Hf | unfold R_COND, R_COUNT; lia|].
    apply wf_registers_length. exact Hwf.
  - apply IH; [apply wf_poke; assumption | exact Hone].
  - apply IH; [exact Hwf | exact Hone].
Qed.

Lemma updates_console s s' : updates s s' -> console_extends (io s) (io s').
Proof.
  induction 1 as [s|r v s s' Hr Hv H IH|f s s' Hf H IH|a v s s' Hv H IH
                 |c s s' Hc H IH].
  - apply console_extends_refl.
  - exact IH.
  - exact IH.
  - exact IH.
  - eapply console_extends_trans; [exact Hc | exact IH].
Qed.

End Updates.

Section HandlerUpdates.

Variables (instr : Z) (s : machine).
Hypothesis Hwf : wf_machine s = true.

Lemma gpr_field x : 0 <= Z.land x 0x7 < R_COND.
Proof. pose proof (field3 x). unfold R_COND. lia. Qed.

Lemma gpr_word x : word (reg s (Z.land x 0x7)).
Proof using Hwf.
  apply reg_word; [|exact Hwf]. pose proof (field3 x). unfold R_COUNT. lia.
Qed.

Lemma updates_result dr v :
  0 <= dr < R_COND -> word v -> updates s (update_flags dr (set_reg dr v s)).
Proof.
  intros Hdr Hv. eapply updates_trans; [apply updates_set_reg; eassumption|].
  apply updates_update_flags.
Qed.

Lemma updates_cmd_add : updates s (cmd_add instr s).
Proof.
  unfold cmd_add. destruct (truthy _);
    apply updates_result; auto using gpr_field, u16_word.
Qed.

Lemma updates_cmd_and : updates s (cmd_and instr s).
Proof.
  unfold cmd_and. destruct (truthy _);
    apply updates_result; auto using gpr_field, u16_word.
Qed.

Lemma updates_cmd_not : updates s (cmd_not instr s).
Proof. unfold cmd_not. apply updates_result; auto using gpr_field, u16_word. Qed.

Lemma updates_cmd_lea : updates s (cmd_lea instr s).
Proof. unfold cmd_lea. apply updates_result; auto using gpr_field, u16_word. Qed.

Lemma updates_cmd_br : updates s (cmd_br instr s).
Proof.
  unfold cmd_br. destruct (truthy _); [|apply updates_refl].
  apply updates_set_reg; [unfold R_PC, R_COND; lia | apply u16_word].
Qed.

Lemma updates_cmd_jmp : updates s (cmd_jmp instr s).
Proof using Hwf.
  unfold cmd_jmp.
  apply updates_set_reg; [unfold R_PC, R_COND; lia | apply gpr_word].
Qed.

Lemma updates_linked : updates s (linked s).
Proof using Hwf.
  unfold linked. apply updates_set_reg; [unfold R_R7, R_COND; lia|].
  apply reg_word; [unfold R_PC, R_COUNT; lia | exact Hwf].
Qed.

Lemma wf_linked : wf_machine (linked s) = true.
Proof using Hwf. exact (updates_wf _ _ updates_linked Hwf). Qed.

Lemma updates_cmd_jsr : updates s (cmd_jsr instr s).
Proof using Hwf.
  unfold cmd_jsr. fold (linked s).
  apply (updates_trans _ _ _ updates_linked).
  destruct (truthy _);
    apply updates_set_reg; try (unfold R_PC, R_COND; lia).
  - apply u16_word.
  - apply reg_word; [|exact wf_linked].
    pose proof (field3 (Z.shiftr instr 6)). unfold R_COUNT. lia.
Qed.

Lemma updates_loaded dr a v s' :
  mem_read a s = Some (v, s') ->
  updates s (update_flags (Z.land dr 0x7) (set_reg (Z.land dr 0x7) v s')).
Proof using Hwf.
  intros Hr. destruct (mem_read_inv _ _ _ _ Hwf Hr) as (_ & _ & Hv).
  apply (updates_trans _ _ _ (updates_mem_read _ _ _ _ Hr)).
  eapply updates_trans; [apply updates_set_reg; [apply gpr_field | exact Hv]|].
  apply updates_update_flags.
Qed.

Lemma updates_cmd_ld s' : cmd_ld instr s = Some s' -> updates s s'.
Proof using Hwf.
  unfold cmd_ld. destruct (mem_read _ s) as [[v s2]|] eqn:Hr; [|discriminate].
  simpl. intros [= <-]. eapply updates_loaded. exact Hr.
Qed.

Lemma updates_cmd_ldr s' : cmd_ldr instr s = Some s' -> updates s s'.
Proof using Hwf.
  unfold cmd_ldr. destruct (mem_read _ s) as [[v s2]|] eqn:Hr; [|discriminate].
  simpl. intros [= <-]. eapply updates_loaded. exact Hr.
Qed.

End HandlerUpdates.

Section HandlerUpdates2.

Variables (instr : Z) (s : machine).
Hypothesis Hwf : wf_machine s = true.

Lemma updates_cmd_ldi s' : cmd_ldi instr s = Some s' -> updates s s'.
Proof using Hwf.
  unfold cmd_ldi. destruct (mem_read _ s) as [[a s2]|] eqn:Hr; [|discriminate].
  simpl. destruct (mem_read_inv _ _ _ _ Hwf Hr) as (_ & Hwf2 & _).
  destruct (mem_read a s2) as [[v s3]|] eqn:Hr2; [|discriminate].
  simpl. intros [= <-].
  apply (updates_trans _ _ _ (updates_mem_read _ _ _ _ Hr)).
  eapply (updates_loaded s2 Hwf2). exact Hr2.
Qed.

Lemma updates_cmd_st s' : cmd_st instr s = Some s' -> updates s s'.
Proof using Hwf.
  unfold cmd_st, mem_write. apply updates_store, gpr_word. exact Hwf.
Qed.

Lemma updates_cmd_str s' : cmd_str instr s = Some s' -> updates s s'.
Proof using Hwf.
  unfold cmd_str, mem_write. apply updates_store, gpr_word. exact Hwf.
Qed.

Lemma updates_cmd_sti s' : cmd_sti instr s = Some s' -> updates s s'.
Proof using Hwf.
  unfold cmd_sti. destruct (mem_read _ s) as [[a s2]|] eqn:Hr; [|discriminate].
  simpl. destruct (mem_read_inv _ _ _ _ Hwf Hr) as (_ & Hwf2 & _).
  intros Hw. apply (updates_trans _ _ _ (updates_mem_read _ _ _ _ Hr)).
  unfold mem_write in Hw. eapply updates_store; [|exact Hw].
  apply gpr_word. exact Hwf2.
Qed.

Lemma updates_cmd_trap running r' s' :
  cmd_trap instr running s = Some (r', s') -> updates s s'.
Proof using Hwf.
  pose proof (updates_linked s Hwf) as Hl.
  revert r' s'. apply cmd_trap_elim; intros _ r' s'.
  - intros [= _ <-]. apply (updates_trans _ _ _ Hl).
    eapply updates_trans; [apply updates_getchar|].
    eapply updates_trans; [|apply updates_update_flags].
    apply updates_set_reg; [unfold R_R0, R_COND; lia | apply u16_word].
  - intros [= _ <-]. apply (updates_trans _ _ _ Hl), updates_putc.
  - destruct (puts_loop _ _) as [s2|] eqn:Hp; [|discriminate].
    simpl. intros [= _ <-]. apply (updates_trans _ _ _ Hl).
    exact (updates_puts_loop _ _ _ Hp).
  - intros [= _ <-]. apply (updates_trans _ _ _ Hl).
    unfold trap_in_read.
    eapply updates_trans; [apply updates_print|].
    eapply updates_trans; [apply updates_getchar|].
    eapply updates_trans; [apply updates_putc|].
    eapply updates_trans; [|apply updates_update_flags].
    apply updates_set_reg; [unfold R_R0, R_COND; lia | apply u16_word].
  - destruct (putsp_loop _ _) as [s2|] eqn:Hp; [|discriminate].
    simpl. intros [= _ <-]. apply (updates_trans _ _ _ Hl).
    exact (updates_putsp_loop _ _ _ Hp).
  - intros [= _ <-]. apply (updates_trans _ _ _ Hl), updates_print.
  - intros [= _ <-]. exact Hl.
Qed.

Lemma updates_execute o :
  execute instr s = Some o -> updates s (outcome_state o).
Proof using Hwf.
  revert o. apply execute_elim; intros _ o;
    try (intros [= <-]; simpl;
         auto using updates_cmd_add, updates_cmd_and, updates_cmd_not,
           updates_cmd_br, updates_cmd_jmp, updates_cmd_jsr, updates_cmd_lea,
           updates_refl; fail).
  - unfold continue. destruct (cmd_ld instr s) eqn:H; [|discriminate].
    intros [= <-]. apply (updates_cmd_ld _ _ Hwf _ H).
  - unfold continue. destruct (cmd_ldi instr s) eqn:H; [|discriminate].
    intros [= <-]. apply (updates_cmd_ldi _ H).
  - unfold continue. destruct (cmd_ldr instr s) eqn:H; [|discriminate].
    intros [= <-]. apply (updates_cmd_ldr _ _ Hwf _ H).
  - unfold continue. destruct (cmd_st instr s) eqn:H; [|discriminate].
    intros [= <-]. apply (updates_cmd_st _ H).
  - unfold continue. destruct (cmd_sti instr s) eqn:H; [|discriminate].
    intros [= <-]. apply (updates_cmd_sti _ H).
  - unfold continue. destruct (cmd_str instr s) eqn:H; [|discriminate].
    intros [= <-]. apply (updates_cmd_str _ H).
  - destruct (cmd_trap instr true s) as [[r' s2]|] eqn:H; [|discriminate].
    simpl. intros [= <-]. pose proof (updates_cmd_trap _ _ _ H) as Hu.
    destruct r'; exact Hu.
Qed.

End HandlerUpdates2.

Section LoopUpdates.

Lemma updates_fetch s instr s1 :
  fetch s = Some (instr, s1) -> updates s s1.
Proof.
  unfold fetch. intros H.
  eapply updates_trans; [|exact (updates_mem_read _ _ _ _ H)].
  apply updates_set_reg; [unfold R_PC, R_COND; lia | apply u16_word].
Qed.

Lemma updates_step s o :
  wf_machine s = true -> step s = Some o -> updates s (outcome_state o).
Proof.
  intros Hwf. unfold step.
  destruct (fetch s) as [[instr s1]|] eqn:Hf; [|discriminate]. simpl.
  intros He. pose proof (updates_fetch _ _ _ Hf) as Hu.
  apply (updates_trans _ _ _ Hu).
  apply (updates_execute instr s1 (updates_wf _ _ Hu Hwf) _ He).
Qed.

Lemma updates_run n s o :
  wf_machine s = true -> run n s = Some o -> updates s (outcome_state o).
Proof.
  revert s. induction n as [|n IH]; intros s Hwf; simpl.
  - intros [= <-]. apply updates_refl.
  - destruct (step s) as [o1|] eqn:Hs; [|discriminate].
    pose proof (updates_step _ _ Hwf Hs) as Hu.
    destruct o1 as [s1|s1|s1]; simpl in Hu.
    + intros Hr. apply (updates_trans _ _ _ Hu).
      apply IH; [exact (updates_wf _ _ Hu Hwf) | exact Hr].
    + intros [= <-]. exact Hu.
    + intros [= <-]. exact Hu.
Qed.

End LoopUpdates.

(** * Invariants of the loop *)

(** [X1] The loop keeps the arrays well formed: after any number of turns,
    however the loop ended, [memory] still has its 65535 words and
    [registers] its ten, all within 16 bits. *)
Theorem run_keeps_wf (n : nat) (s : machine) (o : outcome) :
  wf_machine s = true ->
  run n s = Some o ->
  wf_machine (outcome_state o) = true.
Proof.
  intros Hwf Hr. exact (updates_wf _ _ (updates_run _ _ _ Hwf Hr) Hwf).
Qed.

Lemma run_keeps_wf_witness :
  wf_machine
    (outcome_state (Running (state_after 1 (two_instr 0x1021 0xD000)))) = true.
Proof.
  apply (run_keeps_wf 1 (two_instr 0x1021 0xD000)).
  - vm_compute. reflexivity.
  - apply state_after_run. vm_compute. reflexivity.
Defined.

Lemma wf_boot s : wf_machine s = true -> wf_machine (boot s) = true.
Proof.
  intros Hwf. unfold boot. apply wf_set_reg; [unfold word, PC_START; lia|].
  apply wf_set_reg; [|exact Hwf]. unfold word. vm_compute. split; congruence.
Qed.

Lemma one_flag_boot s : wf_machine s = true -> one_flag (boot s) = true.
Proof.
  intros Hwf. apply one_flag_spec. right. left. unfold boot.
  rewrite reg_set_reg_ne by (unfold R_PC, R_COND; lia).
  apply reg_set_reg; [unfold R_COND, R_COUNT; lia|].
  apply wf_registers_length. exact Hwf.
Qed.

(** [X2] From the state [main] enters the loop with, [R_COND] holds exactly
    one of the three flags after every turn, whatever the program does and
    however the loop ends. *)
Theorem run_keeps_one_flag (n : nat) (s0 : machine) (o : outcome) :
  wf_machine s0 = true ->
  run n (boot s0) = Some o ->
  one_flag (outcome_state o) = true.
Proof.
  intros Hwf Hr. pose proof (wf_boot _ Hwf) as Hwfb.
  exact (updates_one_flag _ _ (updates_run _ _ _ Hwfb Hr) Hwfb
           (one_flag_boot _ Hwf)).
Qed.

Lemma run_keeps_one_flag_witness :
  one_flag
    (outcome_state
       (Running (state_after 2 (boot (poke PC_START 0x103F zeroed))))) = true.
Proof.
  apply (run_keeps_one_flag 2 (poke PC_START 0x103F zeroed)).
  - vm_compute. reflexivity.
  - apply state_after_run. vm_compute. reflexivity.
Defined.

(** [X3] The terminal only moves forward: over any number of turns output
    is only appended, never taken back, and the input and the poll answers
    are only consumed from the front. *)
Theorem run_console_forward (n : nat) (s : machine) (o : outcome) :
  wf_machine s = true ->
  run n s = Some o ->
  console_extends (io s) (io (outcome_state o)).
Proof.
  intros Hwf Hr. exact (updates_console _ _ (updates_run _ _ _ Hwf Hr)).
Qed.

Lemma run_console_forward_witness :
  console_extends (io putsp_example)
    (io (outcome_state (Running (state_after 1 putsp_example)))).
Proof.
  apply (run_console_forward 1 putsp_example).
  - vm_compute. reflexivity.
  - apply state_after_run. vm_compute. reflexivity.
Defined.

(** * How the loop ends *)

Section Ends.

Lemma execute_halted instr s s' :
  execute instr s = Some (Halted s') ->
  Z.shiftr instr 12 = OP_TRAP /\ Z.land instr 0xFF = TRAP_HALT /\
  s' = print ("HALT" ++ String (ascii_of_nat 10) "") (linked s).
Proof.
  revert s'. apply execute_elim; intros Hop s'; try discriminate;
    try (unfold continue;
         match goal with |- context [fmap _ ?r] => destruct r end;
         discriminate).
  apply cmd_trap_elim; intros Hv; try discriminate.
  - destruct (puts_loop _ _); discriminate.
  - destruct (putsp_loop _ _); discriminate.
  - simpl. intros [= <-]. auto.
Qed.

Lemma execute_aborted instr s s' :
  word instr -> execute instr s = Some (Aborted s') ->
  (Z.shiftr instr 12 = OP_RTI \/ Z.shiftr instr 12 = OP_RES) /\ s' = s.
Proof.
  intros Hw. pose proof (opcode_range _ Hw) as Hr.
  revert s'. apply execute_elim; intros Hop s'; try discriminate;
    try (unfold continue;
         match goal with |- context [fmap _ ?r] => destruct r end;
         discriminate).
  - destruct (cmd_trap instr true s) as [[[] s2]|]; discriminate.
  - intros [= <-]. split; [lia | reflexivity].
Qed.

Lemma step_halt s s1 instr :
  fetch s = Some (instr, s1) ->
  Z.shiftr instr 12 = OP_TRAP -> Z.land instr 0xFF = TRAP_HALT ->
  step s = Some (Halted (print ("HALT" ++ String (ascii_of_nat 10) "")
                           (linked s1))).
Proof.
  intros Hf Hop Hv. rewrite (step_fetch _ _ _ Hf), execute_trap by exact Hop.
  rewrite cmd_trap_halt by exact Hv. reflexivity.
Qed.

End Ends.

(** [X4] A turn of the loop ends the run in exactly two ways: it leaves the
    loop through [running = 0] exactly when the fetched word is TRAP with
    vector 0x25, and it calls [abort()] exactly when the opcode is RTI or the
    reserved one.  Every other 16-bit word, unknown trap vectors included,
    lets the loop go on (or reads or writes outside the array). *)
Theorem loop_end_causes (s : machine) (instr : Z) :
  wf_machine s = true ->
  fetched_instr s = Some instr ->
  ((exists s', step s = Some (Halted s')) <->
   Z.shiftr instr 12 = OP_TRAP /\ Z.land instr 0xFF = TRAP_HALT) /\
  ((exists s', step s = Some (Aborted s')) <->
   Z.shiftr instr 12 = OP_RTI \/ Z.shiftr instr 12 = OP_RES).
Proof.
  intros Hwf Hf. apply fetched_instr_fetch in Hf as [s1 Hf].
  pose proof (fetch_instr_word _ _ _ Hwf Hf) as Hw.
  split; split.
  - intros [s' Hs]. rewrite (step_fetch _ _ _ Hf) in Hs.
    destruct (execute_halted _ _ _ Hs) as (Hop & Hv & _). auto.
  - intros [Hop Hv]. eexists. exact (step_halt _ _ _ Hf Hop Hv).
  - intros [s' Hs]. rewrite (step_fetch _ _ _ Hf) in Hs.
    destruct (execute_aborted _ _ _ Hw Hs) as [Hop _]. exact Hop.
  - intros Hop. exists s1. rewrite (step_fetch _ _ _ Hf).
    destruct Hop as [Hop|Hop]; [apply execute_rti | apply execute_res];
      exact Hop.
Qed.

Lemma loop_end_causes_witness :
  ((exists s', step (one_instr 0xF025) = Some (Halted s')) <->
   Z.shiftr 0xF025 12 = OP_TRAP /\ Z.land 0xF025 0xFF = TRAP_HALT) /\
  ((exists s', step (one_instr 0xF025) = Some (Aborted s')) <->
   Z.shiftr 0xF025 12 = OP_RTI \/ Z.shiftr 0xF025 12 = OP_RES).
Proof.
  apply (loop_end_causes (one_instr 0xF025) 0xF025); vm_compute; reflexivity.
Defined.


(** [X6] TRAP HALT, wherever it is reached, ends the run for good: the turn
    writes the notice, leaves the PC just behind the trap and that address
    in [R_R7], changes nothing in memory, and no later turn runs however
    long the loop is allowed to go on. *)
Theorem halt_stops (k n : nat) (s0 s : machine) (instr : Z) :
  wf_machine s0 = true ->
  run k s0 = Some (Running s) ->
  fetched_instr s = Some instr ->
  Z.shiftr instr 12 = OP_TRAP ->
  Z.land instr 0xFF = TRAP_HALT ->
  exists s1 s',
    fetch s = Some (instr, s1) /\
    run (k + S n) s0 = Some (Halted s') /\
    reg s' R_PC = next_pc s /\
    reg s' R_R7 = next_pc s /\
    memory s' = memory s1 /\
    output (io s') = output (io s1) ++ halt_notice.
Proof.
  intros Hwf0 Hk Hf Hop Hv.
  pose proof (run_keeps_wf_aux := updates_wf _ _ (updates_run _ _ _ Hwf0 Hk) Hwf0).
  simpl in run_keeps_wf_aux.
  apply fetched_instr_fetch in Hf as [s1 Hf].
  pose proof (fetch_wf _ _ _ run_keeps_wf_aux Hf) as Hwf1.
  pose proof (fetch_pc _ _ _ run_keeps_wf_aux Hf) as Hpc.
  exists s1. eexists. split; [exact Hf|]. split.
  { rewrite (run_add _ _ _ _ Hk). apply run_stop; [|discriminate].
    exact (step_halt _ _ _ Hf Hop Hv). }
  assert (H7 : reg (linked s1) R_R7 = next_pc s).
  { unfold linked. rewrite Hpc.
    apply reg_set_reg; [unfold R_R7, R_COUNT; lia|].
    apply wf_registers_length. exact Hwf1. }
  assert (Hp : reg (linked s1) R_PC = next_pc s).
  { unfold linked. rewrite reg_set_reg_ne by (unfold R_R7, R_PC; lia).
    exact Hpc. }
  repeat split; assumption.
Qed.

Lemma halt_stops_witness :
  exists s1 s',
    fetch (state_after 1 halt_example) = Some (0xF025, s1) /\
    run (1 + 4) halt_example = Some (Halted s') /\
    reg s' R_PC = next_pc (state_after 1 halt_example) /\
    reg s' R_R7 = next_pc (state_after 1 halt_example) /\
    memory s' = memory s1 /\
    output (io s') = output (io s1) ++ halt_notice.
Proof.
  apply (halt_stops 1 3 halt_example (state_after 1 halt_example) 0xF025).
  - vm_compute. reflexivity.
  - apply state_after_run. vm_compute. reflexivity.
  - vm_compute. reflexivity.
  - reflexivity.
  - reflexivity.
Defined.

(** * The value of a sign-extended field *)

Section SignedValue.

Lemma field_top_bit x w :
  0 < w -> 0 <= x < 2 ^ w ->
  truthy (Z.land (Z.shiftr x (w - 1)) 1) = negb (x <? 2 ^ (w - 1)).
Proof.
  intros Hw Hx. change 1 with (Z.ones 1) at 2.
  rewrite Z.land_ones, Z.shiftr_div_pow2 by lia. change (2 ^ 1) with 2.
  assert (Hp : 2 ^ w = 2 * 2 ^ (w - 1)).
  { rewrite <- Z.pow_succ_r by lia. f_equal. lia. }
  assert (Hpos : 0 < 2 ^ (w - 1)) by (apply Z.pow_pos_nonneg; lia).
  destruct (Z.ltb_spec x (2 ^ (w - 1))) as [Hlt|Hge]; simpl.
  - rewrite Z.div_small by lia. reflexivity.
  - assert (Hq : x / 2 ^ (w - 1) = 1).
    { symmetry. apply (Z.div_unique x (2 ^ (w - 1)) 1 (x - 2 ^ (w - 1))); lia. }
    rewrite Hq. reflexivity.
Qed.

Lemma field_disjoint x w :
  0 <= w -> 0 <= x < 2 ^ w -> Z.land x (Z.shiftl 0xFFFF w) = 0.
Proof.
  intros Hw Hx. apply Z.bits_inj'. intros i Hi.
  rewrite Z.land_spec, Z.bits_0.
  destruct (Z_lt_le_dec i w) as [Hlt|Hge].
  - rewrite Z.shiftl_spec_low by lia. apply andb_false_r.
  - destruct (Z.eq_dec x 0) as [->|Hnz]; [rewrite Z.bits_0; reflexivity|].
    rewrite Z.bits_above_log2; [reflexivity | lia |].
    apply Z.lt_le_trans with w; [|exact Hge].
    apply Z.log2_lt_pow2; lia.
Qed.

(** The two cases of [sign_extend]. *)
Lemma sign_extend_clear x w :
  0 < w -> 0 <= x < 2 ^ w -> x < 2 ^ (w - 1) -> sign_extend x w = x.
Proof.
  intros Hw Hx Hlt. unfold sign_extend. rewrite field_top_bit by lia.
  apply Z.ltb_lt in Hlt. rewrite Hlt. reflexivity.
Qed.

Lemma sign_extend_set x w :
  0 < w <= 16 -> 0 <= x < 2 ^ w -> 2 ^ (w - 1) <= x ->
  sign_extend x w = (x - 2 ^ w) mod 65536.
Proof.
  intros Hw Hx Hge. unfold sign_extend. rewrite field_top_bit by lia.
  apply Z.ltb_ge in Hge. rewrite Hge. simpl. unfold u16.
  rewrite <- Z.lxor_lor by (apply field_disjoint; lia).
  rewrite <- Z.add_nocarry_lxor by (apply field_disjoint; lia).
  rewrite Z.shiftl_mul_pow2 by lia.
  replace (x + 0xFFFF * 2 ^ w) with (x - 2 ^ w + 2 ^ w * 65536) by lia.
  apply Z.mod_add. lia.
Qed.

End SignedValue.

(** [X7] For the widths 1 to 15, where the shift in [sign_extend] stays
    within [int], [sign_extend] gives the two's-complement value of the
    field, reduced modulo 2^16: a field with its top bit clear stands for
    itself, one with its top bit set for itself minus 2^width. *)
Theorem sign_extend_value (w x : Z) :
  0 < w <= 15 ->
  0 <= x < 2 ^ w ->
  sign_extend x w = signed w x mod 65536.
Proof.
  intros Hw Hx. unfold signed.
  assert (Hle : 2 ^ w <= 2 ^ 16) by (apply Z.pow_le_mono_r; lia).
  change (2 ^ 16) with 65536 in Hle.
  destruct (Z.ltb_spec x (2 ^ (w - 1))) as [Hlt|Hge].
  - rewrite sign_extend_clear by lia. symmetry. apply Z.mod_small. lia.
  - apply sign_extend_set; lia.
Qed.

(** The five-bit field 0x1f stands for -1. *)
Lemma sign_extend_value_witness : sign_extend 0x1f 5 = signed 5 0x1f mod 65536.
Proof.
  apply (sign_extend_value 5 0x1f).
  - lia.
  - simpl. lia.
Defined.

Lemma signed_range w x :
  0 < w -> 0 <= x < 2 ^ w -> - 2 ^ (w - 1) <= signed w x < 2 ^ (w - 1).
Proof.
  intros Hw Hx. unfold signed.
  assert (Hp : 2 ^ w = 2 * 2 ^ (w - 1)).
  { rewrite <- Z.pow_succ_r by lia. f_equal. lia. }
  destruct (Z.ltb_spec x (2 ^ (w - 1))); lia.
Qed.

(** [X8] ADD in immediate mode adds the signed value of its five-bit field,
    a number from -16 to 15, modulo 2^16: with the field 0x1f it
    decrements. *)
Theorem add_immediate_signed (s : machine) (instr : Z) :
  wf_machine s = true ->
  Z.land (Z.shiftr instr 5) 0x1 <> 0 ->
  reg (cmd_add instr s) (Z.land (Z.shiftr instr 9) 0x7)
  = (reg s (Z.land (Z.shiftr instr 6) 0x7) + signed 5 (Z.land instr 0x1f))
    mod 65536
  /\ -16 <= signed 5 (Z.land instr 0x1f) <= 15.
Proof.
  intros Hwf Hm. rewrite cmd_add_imm_mode by assumption.
  assert (Hf : 0 <= Z.land instr 0x1f < 2 ^ 5).
  { change 0x1f with (Z.ones 5). apply land_low. lia. }
  split.
  - unfold signed, u16. change (2 ^ (5 - 1)) with 16. change (2 ^ 5) with 32.
    change (2 ^ 5) with 32 in Hf.
    destruct (Z.ltb_spec (Z.land instr 0x1f) 16) as [Hlt|Hge].
    + rewrite sign_extend_clear by (change (2 ^ (5 - 1)) with 16; lia).
      reflexivity.
    + rewrite sign_extend_set by (change (2 ^ (5 - 1)) with 16; lia).
      change (2 ^ 5) with 32. rewrite Z.add_mod_idemp_r by lia. reflexivity.
  - pose proof (signed_range 5 _ ltac:(lia) Hf) as Hr.
    change (2 ^ (5 - 1)) with 16 in Hr. lia.
Qed.

Lemma add_immediate_signed_witness :
  reg (cmd_add 0x103F blank) (Z.land (Z.shiftr 0x103F 9) 0x7)
  = (reg blank (Z.land (Z.shiftr 0x103F 6) 0x7)
     + signed 5 (Z.land 0x103F 0x1f)) mod 65536
  /\ -16 <= signed 5 (Z.land 0x103F 0x1f) <= 15.
Proof.
  apply (add_immediate_signed blank 0x103F).
  - vm_compute. reflexivity.
  - vm_compute. discriminate.
Defined.

(** * NOT and BR *)

Section NotBr.

Lemma u16_lnot v : word v -> u16 (Z.lnot v) = 0xFFFF - v.
Proof.
  unfold word, u16. intros Hv.
  replace (Z.lnot v) with (0xFFFF - v + (-1) * 65536)
    by (unfold Z.lnot; lia).
  rewrite Z.mod_add by lia. apply Z.mod_small. lia.
Qed.

Lemma truthy_land_bit a n :
  0 <= n -> truthy (Z.land a (2 ^ n)) = Z.testbit a n.
Proof.
  intros Hn. destruct (Z.testbit a n) eqn:Hb.
  - apply truthy_true. intros H0.
    assert (Hc : Z.testbit (Z.land a (2 ^ n)) n = true)
      by (rewrite Z.land_spec, Hb, Z.pow2_bits_true by lia; reflexivity).
    rewrite H0, Z.bits_0 in Hc. discriminate.
  - apply truthy_false. apply Z.bits_inj'. intros i Hi.
    rewrite Z.land_spec, Z.bits_0.
    destruct (Z.eq_dec i n) as [->|Hne].
    + rewrite Hb. reflexivity.
    + rewrite Z.pow2_bits_false by lia. apply andb_false_r.
Qed.

Lemma mask_bit instr k :
  0 <= k < 3 ->
  Z.testbit (Z.land (Z.shiftr instr 9) 0x7) k = Z.testbit instr (k + 9).
Proof.
  intros Hk. rewrite Z.land_spec, Z.shiftr_spec by lia.
  change 0x7 with (Z.ones 3). rewrite Z.ones_spec_low by lia.
  apply andb_true_r.
Qed.

End NotBr.

(** [X9] NOT leaves the one's complement of the source, 0xFFFF minus its
    value, in the destination; applied twice to the same register it gives
    the value back. *)
Theorem not_complements (s : machine) (instr : Z) :
  wf_machine s = true ->
  reg (cmd_not instr s) (Z.land (Z.shiftr instr 9) 0x7)
  = 0xFFFF - reg s (Z.land (Z.shiftr instr 6) 0x7)
  /\ (Z.land (Z.shiftr instr 9) 0x7 = Z.land (Z.shiftr instr 6) 0x7 ->
      reg (cmd_not instr (cmd_not instr s)) (Z.land (Z.shiftr instr 9) 0x7)
      = reg s (Z.land (Z.shiftr instr 9) 0x7)).
Proof.
  intros Hwf.
  assert (H1 : forall t, wf_machine t = true ->
             reg (cmd_not instr t) (Z.land (Z.shiftr instr 9) 0x7)
             = 0xFFFF - reg t (Z.land (Z.shiftr instr 6) 0x7)).
  { intros t Ht. unfold cmd_not.
    rewrite written_result by (exact Ht || apply field3).
    apply u16_lnot, gpr_word. exact Ht. }
  split; [apply H1, Hwf|].
  intros Heq.
  rewrite H1 by exact (updates_wf _ _ (updates_cmd_not instr s) Hwf).
  rewrite <- Heq at 1. rewrite H1 by exact Hwf. rewrite Heq. lia.
Qed.

(** NOT R0, R0 on the blank machine. *)
Lemma not_complements_witness :
  reg (cmd_not 0x903F blank) (Z.land (Z.shiftr 0x903F 9) 0x7)
  = 0xFFFF - reg blank (Z.land (Z.shiftr 0x903F 6) 0x7)
  /\ (Z.land (Z.shiftr 0x903F 9) 0x7 = Z.land (Z.shiftr 0x903F 6) 0x7 ->
      reg (cmd_not 0x903F (cmd_not 0x903F blank))
        (Z.land (Z.shiftr 0x903F 9) 0x7)
      = reg blank (Z.land (Z.shiftr 0x903F 9) 0x7)).
Proof.
  apply (not_complements blank 0x903F). vm_compute. reflexivity.
Defined.

(** [X10] BR decodes its condition bits as n = bit 11, z = bit 10 and
    p = bit 9: with one flag in [R_COND] the branch is taken exactly when
    the bit of that flag is set in the instruction, and a branch not taken
    changes nothing at all. *)
Theorem branch_condition (s : machine) (instr : Z) :
  one_flag s = true ->
  cmd_br instr s =
    if (Z.testbit instr 11 && (reg s R_COND =? FL_NEG))
       || (Z.testbit instr 10 && (reg s R_COND =? FL_ZRO))
       || (Z.testbit instr 9 && (reg s R_COND =? FL_POS))
    then set_reg R_PC
           (u16 (reg s R_PC + sign_extend (Z.land instr 0x1ff) 9)) s
    else s.
Proof.
  intros Hone. unfold cmd_br.
  apply one_flag_spec in Hone as [E|[E|E]]; rewrite E.
  - change FL_POS with (2 ^ 0) at 1.
    rewrite truthy_land_bit, (mask_bit instr 0) by lia.
    change (FL_POS =? FL_NEG) with false. change (FL_POS =? FL_ZRO) with false.
    change (FL_POS =? FL_POS) with true.
    rewrite !andb_false_r, andb_true_r. reflexivity.
  - change FL_ZRO with (2 ^ 1) at 1.
    rewrite truthy_land_bit, (mask_bit instr 1) by lia.
    change (FL_ZRO =? FL_NEG) with false. change (FL_ZRO =? FL_ZRO) with true.
    change (FL_ZRO =? FL_POS) with false.
    rewrite !andb_false_r, andb_true_r, orb_false_r. reflexivity.
  - change FL_NEG with (2 ^ 2) at 1.
    rewrite truthy_land_bit, (mask_bit instr 2) by lia.
    change (FL_NEG =? FL_NEG) with true. change (FL_NEG =? FL_ZRO) with false.
    change (FL_NEG =? FL_POS) with false.
    rewrite !andb_false_r, andb_true_r, !orb_false_r. reflexivity.
Qed.

(** BRz +2 (word 0x0402) on the blank machine, whose flag is Z. *)
Lemma branch_condition_witness :
  cmd_br 0x0402 blank =
    if (Z.testbit 0x0402 11 && (reg blank R_COND =? FL_NEG))
       || (Z.testbit 0x0402 10 && (reg blank R_COND =? FL_ZRO))
       || (Z.testbit 0x0402 9 && (reg blank R_COND =? FL_POS))
    then set_reg R_PC
           (u16 (reg blank R_PC + sign_extend (Z.land 0x0402 0x1ff) 9)) blank
    else blank.
Proof.
  apply (branch_condition blank 0x0402). vm_compute. reflexivity.
Defined.

(** * Linking and returning *)

Section Link.

Lemma reg_getchar s r : reg (getchar s).2 r = reg s r.
Proof. unfold reg. rewrite registers_getchar. reflexivity. Qed.

Lemma puts_loop_emit c s s' : puts_loop c s = Some s' -> exists o, s' = emit o s.
Proof.
  revert s. induction c as [|w c IH]; intros s; simpl; [discriminate|].
  destruct (truthy w).
  - intros H. destruct (IH _ H) as [o ->].
    exists ([to_char w mod 256] ++ o). rewrite putc_emit, emit_emit.
    reflexivity.
  - intros [= <-]. exists []. symmetry. apply emit_nil.
Qed.

Lemma putsp_loop_emit c s s' : putsp_loop c s = Some s' -> exists o, s' = emit o s.
Proof.
  revert s. induction c as [|w c IH]; intros s; simpl; [discriminate|].
  destruct (truthy w).
  - intros H. destruct (IH _ H) as [o ->]. destruct (truthy _).
    + eexists. rewrite !putc_emit, !emit_emit. reflexivity.
    + eexists. rewrite !putc_emit, !emit_emit. reflexivity.
  - intros [= <-]. exists []. symmetry. apply emit_nil.
Qed.

Variables (instr : Z) (s : machine).
Hypothesis Hwf : wf_machine s = true.

Lemma reg_linked_r7 : reg (linked s) R_R7 = reg s R_PC.
Proof using Hwf.
  unfold linked. apply reg_set_reg; [unfold R_R7, R_COUNT; lia|].
  apply wf_registers_length. exact Hwf.
Qed.

Lemma cmd_jsr_link : reg (cmd_jsr instr s) R_R7 = reg s R_PC.
Proof using Hwf.
  unfold cmd_jsr. fold (linked s).
  destruct (truthy _); rewrite reg_set_reg_ne by (unfold R_PC, R_R7; lia);
    apply reg_linked_r7.
Qed.

Lemma cmd_trap_link running r' s' :
  cmd_trap instr running s = Some (r', s') -> reg s' R_R7 = reg s R_PC.
Proof using Hwf.
  pose proof reg_linked_r7 as Hl.
  revert r' s'. apply cmd_trap_elim; intros _ r' s'.
  - intros [= _ <-]. rewrite reg_update_flags by (unfold R_R7, R_COND; lia).
    rewrite reg_set_reg_ne by (unfold R_R7, R_R0; lia).
    rewrite reg_getchar. exact Hl.
  - intros [= _ <-]. exact Hl.
  - destruct (puts_loop _ _) as [s2|] eqn:Hp; [|discriminate].
    simpl. intros [= _ <-]. destruct (puts_loop_emit _ _ _ Hp) as [o ->].
    exact Hl.
  - intros [= _ <-]. rewrite reg_update_flags by (unfold R_R7, R_COND; lia).
    rewrite reg_set_reg_ne by (unfold R_R7, R_R0; lia).
    unfold trap_in_read.
    change (reg (getchar (print "Enter a character: " (linked s))).2 R_R7
            = reg s R_PC).
    rewrite reg_getchar. exact Hl.
  - destruct (putsp_loop _ _) as [s2|] eqn:Hp; [|discriminate].
    simpl. intros [= _ <-]. destruct (putsp_loop_emit _ _ _ Hp) as [o ->].
    exact Hl.
  - intros [= _ <-]. exact Hl.
  - intros [= _ <-]. exact Hl.
Qed.

End Link.

(** [X11] JSR, JSRR and every TRAP, whatever its vector and however the
    turn ends, leave in [R_R7] the address of the instruction that follows
    them. *)
Theorem link_register (s : machine) (instr : Z) (o : outcome) :
  wf_machine s = true ->
  fetched_instr s = Some instr ->
  Z.shiftr instr 12 = OP_JSR \/ Z.shiftr instr 12 = OP_TRAP ->
  step s = Some o ->
  reg (outcome_state o) R_R7 = next_pc s.
Proof.
  intros Hwf Hf Hop Hs. apply fetched_instr_fetch in Hf as [s1 Hf].
  pose proof (fetch_wf _ _ _ Hwf Hf) as Hwf1.
  unfold next_pc. rewrite <- (fetch_pc _ _ _ Hwf Hf).
  rewrite (step_fetch _ _ _ Hf) in Hs. destruct Hop as [Hop|Hop].
  - rewrite execute_jsr in Hs by exact Hop. injection Hs as <-.
    apply cmd_jsr_link. exact Hwf1.
  - rewrite execute_trap in Hs by exact Hop.
    destruct (cmd_trap instr true s1) as [[r' s2]|] eqn:Ht; [|discriminate].
    simpl in Hs. injection Hs as <-.
    pose proof (cmd_trap_link _ _ Hwf1 _ _ _ Ht) as Hl.
    destruct r'; exact Hl.
Qed.

(** TRAP OUT at 0x3000. *)
Lemma link_register_witness :
  reg (outcome_state (Running (state_after 1 (one_instr 0xF021)))) R_R7
  = next_pc (one_instr 0xF021).
Proof.
  apply (link_register (one_instr 0xF021) 0xF021).
  - vm_compute. reflexivity.
  - vm_compute. reflexivity.
  - right. reflexivity.
  - apply run_one, state_after_run. vm_compute. reflexivity.
Defined.

(** [X12] A call returns: after JSR or JSRR, when the next instruction
    executed is JMP through [R_R7] (RET), control is back at the instruction
    that follows the call. *)
Theorem jsr_ret_returns (s : machine) (i1 i2 : Z) :
  wf_machine s = true ->
  fetched_instr s = Some i1 ->
  Z.shiftr i1 12 = OP_JSR ->
  fetched_instr (state_after 1 s) = Some i2 ->
  Z.shiftr i2 12 = OP_JMP ->
  Z.land (Z.shiftr i2 6) 0x7 = R_R7 ->
  exists s2, run 2 s = Some (Running s2) /\ reg s2 R_PC = next_pc s.
Proof.
  intros Hwf Hf1 Hop1 Hf2 Hop2 Hbase.
  apply fetched_instr_fetch in Hf1 as [s1 Hf1].
  assert (Hs1 : step s = Some (Running (cmd_jsr i1 s1))).
  { rewrite (step_fetch _ _ _ Hf1). apply execute_jsr. exact Hop1. }
  assert (Ha : state_after 1 s = cmd_jsr i1 s1).
  { unfold state_after. simpl. rewrite Hs1. reflexivity. }
  rewrite Ha in Hf2. apply fetched_instr_fetch in Hf2 as [s3 Hf2].
  pose proof (fetch_wf _ _ _ Hwf Hf1) as Hwf1.
  pose proof (updates_wf _ _ (updates_cmd_jsr i1 s1 Hwf1) Hwf1) as HwfA.
  pose proof (fetch_wf _ _ _ HwfA Hf2) as Hwf3.
  exists (cmd_jmp i2 s3). split.
  - simpl. rewrite Hs1. unfold step. rewrite Hf2. simpl.
    rewrite execute_jmp by exact Hop2. reflexivity.
  - unfold cmd_jmp. rewrite Hbase.
    rewrite reg_set_reg
      by (unfold R_PC, R_COUNT; lia || apply wf_registers_length, Hwf3).
    rewrite (fetch_reg _ _ _ HwfA Hf2) by (unfold R_R7, R_PC; lia).
    rewrite cmd_jsr_link by exact Hwf1.
    exact (fetch_pc _ _ _ Hwf Hf1).
Qed.

(** JSR +1 at 0x3000 over one word to a RET at 0x3002. *)
Lemma jsr_ret_returns_witness :
  exists s2,
    run 2 (poke 0x3002 0xC1C0 (one_instr 0x4801)) = Some (Running s2) /\
    reg s2 R_PC = next_pc (poke 0x3002 0xC1C0 (one_instr 0x4801)).
Proof.
  apply (jsr_ret_returns (poke 0x3002 0xC1C0 (one_instr 0x4801))
           0x4801 0xC1C0); vm_compute; reflexivity.
Defined.

(** * Stores and loads *)

Section Frames.

Lemma registers_mem_read a s v s' :
  mem_read a s = Some (v, s') -> registers s' = registers s.
Proof.
  destruct (Z.eq_dec a MR_KBSR) as [->|Hne].
  - rewrite mem_read_kbsr.
    destruct (load MR_KBSR (kbsr_poll s)); [|discriminate].
    simpl. intros [= _ <-]. apply registers_kbsr_poll.
  - rewrite mem_read_plain by exact Hne.
    destruct (load a s); [|discriminate]. simpl. intros [= _ <-]. reflexivity.
Qed.

Lemma memory_result dr v s :
  memory (update_flags dr (set_reg dr v s)) = memory s.
Proof. rewrite memory_update_flags. reflexivity. Qed.

Lemma io_result dr v s : io (update_flags dr (set_reg dr v s)) = io s.
Proof. rewrite io_update_flags. reflexivity. Qed.

End Frames.

(** [X13] What STR stores LDR loads back: with the same base register and
    offset, and an address inside the array other than the keyboard status
    register, the register loaded ends up with the value stored. *)
Theorem str_ldr_round_trip (s : machine) (i1 i2 : Z) :
  wf_machine s = true ->
  u16 (reg s (Z.land (Z.shiftr i1 6) 0x7) + sign_extend (Z.land i1 0x3f) 6)
    < MEMORY_MAX ->
  u16 (reg s (Z.land (Z.shiftr i1 6) 0x7) + sign_extend (Z.land i1 0x3f) 6)
    <> MR_KBSR ->
  Z.land (Z.shiftr i2 6) 0x7 = Z.land (Z.shiftr i1 6) 0x7 ->
  Z.land i2 0x3f = Z.land i1 0x3f ->
  exists s1 s2,
    cmd_str i1 s = Some s1 /\
    cmd_ldr i2 s1 = Some s2 /\
    reg s2 (Z.land (Z.shiftr i2 9) 0x7) = reg s (Z.land (Z.shiftr i1 9) 0x7).
Proof.
  intros Hwf Hin Hk Hbase Hoff.
  set (a := u16 (reg s (Z.land (Z.shiftr i1 6) 0x7)
                 + sign_extend (Z.land i1 0x3f) 6)) in *.
  set (v := reg s (Z.land (Z.shiftr i1 9) 0x7)).
  assert (Hv : word v) by (apply gpr_word; exact Hwf).
  assert (Ha : 0 <= a) by (pose proof (u16_word
    (reg s (Z.land (Z.shiftr i1 6) 0x7) + sign_extend (Z.land i1 0x3f) 6))
    as Hw; unfold word in Hw; fold a in Hw; lia).
  pose proof (wf_poke a v s Hv Hwf) as Hwf1.
  exists (poke a v s). eexists. split; [|split].
  - unfold cmd_str, mem_write. fold a. fold v. apply store_Some. exact Hin.
  - unfold cmd_ldr. rewrite Hbase, Hoff.
    change (reg (poke a v s) (Z.land (Z.shiftr i1 6) 0x7))
      with (reg s (Z.land (Z.shiftr i1 6) 0x7)).
    fold a. rewrite mem_read_plain by exact Hk.
    rewrite load_poke
      by first [split; [exact Ha | exact Hin] | apply wf_memory_length, Hwf].
    reflexivity.
  - apply written_result; [exact Hwf1 | apply field3].
Qed.

(** STR R0, R1, #1 and LDR R2, R1, #1 with 0x1234 in R0 and 0x4000 in R1. *)
Lemma str_ldr_round_trip_witness :
  exists s1 s2,
    cmd_str 0x7041 (set_reg R_R0 0x1234 (set_reg R_R1 0x4000 blank)) = Some s1 /\
    cmd_ldr 0x6441 s1 = Some s2 /\
    reg s2 (Z.land (Z.shiftr 0x6441 9) 0x7)
    = reg (set_reg R_R0 0x1234 (set_reg R_R1 0x4000 blank))
        (Z.land (Z.shiftr 0x7041 9) 0x7).
Proof.
  apply (str_ldr_round_trip (set_reg R_R0 0x1234 (set_reg R_R1 0x4000 blank))
           0x7041 0x6441).
  - vm_compute. reflexivity.
  - vm_compute. reflexivity.
  - vm_compute. discriminate.
  - vm_compute. reflexivity.
  - vm_compute. reflexivity.
Defined.

(** [X14] What the handlers never touch: ADD, AND, NOT, BR, JMP, JSR and LEA
    always complete and leave the memory and the terminal as they were; ST,
    STI and STR, when they complete, leave every register, the PC and the
    flags included, as it was. *)
Theorem untouched_state (instr : Z) (s : machine) :
  (In (Z.shiftr instr 12)
      [OP_ADD; OP_AND; OP_NOT; OP_BR; OP_JMP; OP_JSR; OP_LEA] ->
   exists s', execute instr s = Some (Running s') /\
              memory s' = memory s /\ io s' = io s) /\
  (In (Z.shiftr instr 12) [OP_ST; OP_STI; OP_STR] ->
   forall o, execute instr s = Some o ->
             exists s', o = Running s' /\ registers s' = registers s).
Proof.
  split.
  - simpl. intros [E|[E|[E|[E|[E|[E|[E|[]]]]]]]]; symmetry in E; eexists.
    + rewrite execute_add by exact E. split; [reflexivity|].
      unfold cmd_add. destruct (truthy _);
        rewrite memory_result, io_result; split; reflexivity.
    + rewrite execute_and by exact E. split; [reflexivity|].
      unfold cmd_and. destruct (truthy _);
        rewrite memory_result, io_result; split; reflexivity.
    + rewrite execute_not by exact E. split; [reflexivity|].
      unfold cmd_not. rewrite memory_result, io_result. split; reflexivity.
    + rewrite execute_br by exact E. split; [reflexivity|].
      unfold cmd_br. destruct (truthy _); split; reflexivity.
    + rewrite execute_jmp by exact E. split; [reflexivity|].
      split; reflexivity.
    + rewrite execute_jsr by exact E. split; [reflexivity|].
      unfold cmd_jsr. destruct (truthy _); split; reflexivity.
    + rewrite execute_lea by exact E. split; [reflexivity|].
      unfold cmd_lea. rewrite memory_result, io_result. split; reflexivity.
  - simpl. intros [E|[E|[E|[]]]] o; symmetry in E.
    + rewrite execute_st by exact E. unfold continue, cmd_st, mem_write.
      destruct (store _ _ s) as [s'|] eqn:Hst; [|discriminate].
      intros [= <-]. exists s'. split; [reflexivity|].
      exact (registers_store _ _ _ _ Hst).
    + rewrite execute_sti by exact E. unfold continue, cmd_sti, mem_write.
      destruct (mem_read _ s) as [[a s2]|] eqn:Hr; [|discriminate]. simpl.
      destruct (store _ _ s2) as [s'|] eqn:Hst; [|discriminate].
      intros [= <-]. exists s'. split; [reflexivity|].
      rewrite (registers_store _ _ _ _ Hst).
      exact (registers_mem_read _ _ _ _ Hr).
    + rewrite execute_str by exact E. unfold continue, cmd_str, mem_write.
      destruct (store _ _ s) as [s'|] eqn:Hst; [|discriminate].
      intros [= <-]. exists s'. split; [reflexivity|].
      exact (registers_store _ _ _ _ Hst).
Qed.

(** ADD R0, R0, #1 touches neither memory nor terminal. *)
Lemma untouched_state_witness :
  exists s', execute 0x1021 blank = Some (Running s') /\
             memory s' = memory blank /\ io s' = io blank.
Proof.
  apply (proj1 (untouched_state 0x1021 blank)). left. reflexivity.
Defined.

(** * The string and character traps *)

Section Strings.

Lemma to_char_mod x : to_char x mod 256 = x mod 256.
Proof.
  unfold to_char. rewrite Zminus_mod, Zmod_mod, <- Zminus_mod.
  f_equal. lia.
Qed.

Lemma puts_loop_spec pre post s :
  forallb truthy pre = true ->
  puts_loop (pre ++ 0 :: post) s
  = Some (emit (map (fun w => w mod 256) pre) s).
Proof.
  revert s. induction pre as [|w pre IH]; intros s Hnz.
  - simpl. rewrite emit_nil. reflexivity.
  - simpl in Hnz. apply andb_true_iff in Hnz as [Hw0 Hnz].
    simpl. rewrite Hw0, IH by exact Hnz.
    rewrite putc_emit, emit_emit, to_char_mod. reflexivity.
Qed.

Lemma puts_loop_unterminated c s :
  forallb truthy c = true -> puts_loop c s = None.
Proof.
  revert s. induction c as [|w c IH]; intros s; simpl; [reflexivity|].
  intros H. apply andb_true_iff in H as [Hw Hc]. rewrite Hw. apply IH, Hc.
Qed.

Lemma putsp_loop_unterminated c s :
  forallb truthy c = true -> putsp_loop c s = None.
Proof.
  revert s. induction c as [|w c IH]; intros s; simpl; [reflexivity|].
  intros H. apply andb_true_iff in H as [Hw Hc]. rewrite Hw. apply IH, Hc.
Qed.

Lemma reg_linked_r0 s : reg (linked s) R_R0 = reg s R_R0.
Proof. unfold linked. apply reg_set_reg_ne; unfold R_R7, R_R0; lia. Qed.

End Strings.

(** [X15] TRAP PUTS writes one character per word from the address in
    [R_R0] up to the first zero word: of each word the low eight bits, so a
    nonzero word whose low byte is zero is written as NUL and does not end
    the string.  Only the terminal output and the link in [R_R7] change. *)
Theorem puts_output (s : machine) (instr : Z) (running : bool) (pre : list Z) :
  Z.land instr 0xFF = TRAP_PUTS ->
  take (S (length pre)) (drop (Z.to_nat (reg s R_R0)) (memory s)) = pre ++ [0] ->
  forallb truthy pre = true ->
  cmd_trap instr running s
  = Some (running, emit (map (fun w => w mod 256) pre) (linked s)).
Proof.
  intros Hv Hstr Hnz. rewrite cmd_trap_puts by exact Hv.
  rewrite reg_linked_r0. apply string_at_split in Hstr.
  rewrite Hstr, puts_loop_spec by exact Hnz. reflexivity.
Qed.

Lemma puts_output_witness :
  cmd_trap 0xF022 true puts_example
  = Some (true, emit (map (fun w => w mod 256) [0x48; 0x169])
                  (linked puts_example)).
Proof.
  apply (puts_output puts_example 0xF022 true [0x48; 0x169]);
    vm_compute; reflexivity.
Defined.

(** [X16] A string that reaches the end of the array without a zero word
    makes TRAP PUTS and TRAP PUTSP read past the last element: the trap has
    no defined result. *)
Theorem unterminated_string (s : machine) (instr : Z) (running : bool) :
  Z.land instr 0xFF = TRAP_PUTS \/ Z.land instr 0xFF = TRAP_PUTSP ->
  forallb truthy (drop (Z.to_nat (reg s R_R0)) (memory s)) = true ->
  cmd_trap instr running s = None.
Proof.
  intros [Hv|Hv] Hnz.
  - rewrite cmd_trap_puts by exact Hv. rewrite reg_linked_r0.
    rewrite puts_loop_unterminated by exact Hnz. reflexivity.
  - rewrite cmd_trap_putsp by exact Hv. rewrite reg_linked_r0.
    rewrite putsp_loop_unterminated by exact Hnz. reflexivity.
Qed.

Lemma unterminated_string_witness :
  cmd_trap 0xF022 true unterminated_example = None.
Proof.
  apply (unterminated_string unterminated_example 0xF022 true).
  - left. reflexivity.
  - vm_compute. reflexivity.
Defined.

Section Characters.

Lemma update_flags_value r s :
  length (registers s) = 10%nat -> word (reg s r) ->
  reg (update_flags r s) R_COND
  = if reg s r =? 0 then FL_ZRO
    else if reg s r <? 32768 then FL_POS else FL_NEG.
Proof.
  intros Hlen Hv. unfold update_flags, word in *.
  assert (Hc : forall f, reg (set_reg R_COND f s) R_COND = f).
  { intros f. apply reg_set_reg; [unfold R_COND, R_COUNT; lia | exact Hlen]. }
  destruct (reg s r =? 0); [apply Hc|].
  rewrite Z.shiftr_div_pow2 by lia. change (2 ^ 15) with 32768.
  destruct (Z.ltb_spec (reg s r) 32768) as [Hlt|Hge].
  - rewrite Z.div_small by lia. apply Hc.
  - assert (Hq : reg s r / 32768 = 1).
    { symmetry. apply (Z.div_unique _ 32768 1 (reg s r - 32768)); lia. }
    rewrite Hq. apply Hc.
Qed.

Lemma result_value dr v s :
  0 <= dr < 8 -> word v -> length (registers s) = 10%nat ->
  reg (update_flags dr (set_reg dr v s)) dr = v /\
  reg (update_flags dr (set_reg dr v s)) R_COND
  = if v =? 0 then FL_ZRO else if v <? 32768 then FL_POS else FL_NEG.
Proof.
  intros Hdr Hv Hlen.
  assert (Hw : reg (set_reg dr v s) dr = v)
    by (apply reg_set_reg; [unfold R_COUNT; lia | exact Hlen]).
  split.
  - rewrite reg_update_flags by (unfold R_COND; lia). exact Hw.
  - rewrite update_flags_value; rewrite ?Hw, ?length_set_reg; auto.
Qed.

Lemma to_char_ascii c : 0 <= c < 128 -> to_char c = c.
Proof.
  intros Hc. unfold to_char. rewrite Z.mod_small by lia. lia.
Qed.

End Characters.

(** [X17] With a character below 128 next in the input, TRAP GETC and TRAP
    IN both take exactly that character into [R_R0] and set the flags from
    it (Z for NUL, P otherwise).  GETC writes nothing; IN writes its prompt
    and then echoes the character.  Memory is not touched. *)
Theorem char_traps (s : machine) (instr : Z) (running : bool)
    (c : Z) (rest : list Z) :
  wf_machine s = true ->
  input (io s) = c :: rest ->
  0 <= c < 128 ->
  Z.land instr 0xFF = TRAP_GETC \/ Z.land instr 0xFF = TRAP_IN ->
  exists s',
    cmd_trap instr running s = Some (running, s') /\
    reads_char (Z.land instr 0xFF =? TRAP_IN) s c rest s'.
Proof.
  intros Hwf Hin Hc Hv.
  pose proof (wf_registers_length _ Hwf) as Hlen.
  assert (Hw : word c) by (unfold word; lia).
  assert (Hlt : (c <? 32768) = true) by (apply Z.ltb_lt; lia).
  assert (Hlen' : length (registers (linked s)) = 10%nat)
    by (rewrite length_linked; exact Hlen).
  destruct Hv as [Hv|Hv]; rewrite Hv.
  - rewrite (cmd_trap_getc _ _ _ Hv). eexists. split; [reflexivity|].
    rewrite getchar_eq.
    change (io (linked s)) with (io s). rewrite Hin. simpl hd. simpl tail.
    cbn [fst snd]. rewrite (u16_id c Hw).
    unfold reads_char. change (TRAP_GETC =? TRAP_IN) with false.
    destruct (result_value R_R0 c
                (with_io (Console (polls (io s)) rest (output (io s)))
                   (linked s))) as [H0 Hf];
      [unfold R_R0; lia | exact Hw | exact Hlen' |].
    rewrite Hlt in Hf. rewrite H0, Hf, memory_result, io_result.
    simpl. rewrite app_nil_r. repeat split; reflexivity.
  - rewrite (cmd_trap_in _ _ _ Hv). eexists. split; [reflexivity|].
    unfold trap_in_read. rewrite getchar_eq.
    change (io (print "Enter a character: " (linked s)))
      with (Console (polls (io s)) (input (io s)) (output (io s) ++ in_prompt)).
    cbn [polls input output]. rewrite Hin. simpl hd. simpl tail.
    cbn [fst snd]. rewrite (to_char_ascii c Hc), (u16_id c Hw).
    unfold reads_char. change (TRAP_IN =? TRAP_IN) with true.
    match goal with
    | |- context [update_flags R_R0 (set_reg R_R0 c ?t)] =>
        destruct (result_value R_R0 c t) as [H0 Hf];
          [unfold R_R0; lia | exact Hw | exact Hlen' |]
    end.
    rewrite Hlt in Hf. rewrite H0, Hf, memory_result, io_result.
    simpl. rewrite (Z.mod_small c) by lia. rewrite <- app_assoc.
    repeat split; reflexivity.
Qed.

(** TRAP IN on [keyboard_example], where 'a' is waiting. *)
Lemma char_traps_witness :
  exists s',
    cmd_trap 0xF023 true keyboard_example = Some (true, s') /\
    reads_char (Z.land 0xF023 0xFF =? TRAP_IN) keyboard_example 0x61 [] s'.
Proof.
  apply (char_traps keyboard_example 0xF023 true 0x61 []).
  - vm_compute. reflexivity.
  - vm_compute. reflexivity.
  - lia.
  - right. reflexivity.
Defined.

(** [X18] At the end of the input TRAP GETC does not wait: [getchar]
    returns [EOF], and the trap leaves 0xFFFF in [R_R0] with the flag N. *)
Theorem getc_at_end_of_input (s : machine) (instr : Z) (running : bool) :
  wf_machine s = true ->
  input (io s) = [] ->
  Z.land instr 0xFF = TRAP_GETC ->
  exists s',
    cmd_trap instr running s = Some (running, s') /\
    reg s' R_R0 = 0xFFFF /\
    reg s' R_COND = FL_NEG /\
    io s' = io s.
Proof.
  intros Hwf Hin Hv. pose proof (wf_registers_length _ Hwf) as Hlen.
  rewrite (cmd_trap_getc _ _ _ Hv). eexists. split; [reflexivity|].
  unfold getchar. change (io (linked s)) with (io s). rewrite Hin.
  cbn [fst snd]. change (u16 EOF) with 0xFFFF.
  destruct (result_value R_R0 0xFFFF (linked s)) as [H0 Hf];
    [unfold R_R0; lia | unfold word; lia
    | rewrite length_linked; exact Hlen |].
  rewrite H0, Hf, io_result. repeat split; reflexivity.
Qed.

Lemma getc_at_end_of_input_witness :
  exists s',
    cmd_trap 0xF020 true blank = Some (true, s') /\
    reg s' R_R0 = 0xFFFF /\
    reg s' R_COND = FL_NEG /\
    io s' = io blank.
Proof.
  apply (getc_at_end_of_input blank 0xF020 true); vm_compute; reflexivity.
Defined.

(** * Writing to the keyboard status register *)

Lemma mem_read_kbsr_status s :
  wf_machine s = true ->
  exists s',
    mem_read MR_KBSR s
    = Some ((if (check_key s).1 then Z.shiftl 1 15 else 0), s').
Proof.
  intros Hwf. pose proof (wf_memory_length s Hwf) as Hlen.
  exists (kbsr_poll s). rewrite mem_read_kbsr.
  destruct (check_key s).1 eqn:Hready.
  - rewrite (kbsr_poll_ready s Hready).
    rewrite load_poke_ne by discriminate.
    rewrite load_poke; [reflexivity | split; [discriminate | reflexivity]
                       | exact Hlen].
  - rewrite (kbsr_poll_idle s Hready).
    rewrite load_poke; [reflexivity | split; [discriminate | reflexivity]
                       | exact Hlen].
Qed.

(** [X19] The keyboard status register is no storage: the write of any
    value there succeeds, but the next read polls the keyboard and returns
    0x8000 or 0 as the poll says, whatever was written. *)
Theorem status_register_not_storage (s : machine) (v : Z) :
  wf_machine s = true ->
  word v ->
  exists s1 s2,
    mem_write MR_KBSR v s = Some s1 /\
    mem_read MR_KBSR s1
    = Some ((if (check_key s).1 then Z.shiftl 1 15 else 0), s2).
Proof.
  intros Hwf Hv. exists (poke MR_KBSR v s).
  destruct (mem_read_kbsr_status (poke MR_KBSR v s) (wf_poke _ _ _ Hv Hwf))
    as [s2 Hr].
  assert (Hk : (check_key (poke MR_KBSR v s)).1 = (check_key s).1)
    by (rewrite !check_key_eq; reflexivity).
  rewrite Hk in Hr.
  exists s2. split; [apply store_Some; reflexivity | exact Hr].
Qed.

Lemma status_register_not_storage_witness :
  exists s1 s2,
    mem_write MR_KBSR 0x1234 blank = Some s1 /\
    mem_read MR_KBSR s1
    = Some ((if (check_key blank).1 then Z.shiftl 1 15 else 0), s2).
Proof.
  apply (status_register_not_storage blank 0x1234).
  - vm_compute. reflexivity.
  - unfold word. lia.
Defined.

(** * Byte order *)

Section Swap.

Lemma swap16_bytes hi lo :
  0 <= hi < 256 -> 0 <= lo < 256 -> swap16 (lo + 256 * hi) = hi + 256 * lo.
Proof.
  intros Hhi Hlo. unfold swap16, u16.
  rewrite Z.shiftr_div_pow2, Z.shiftl_mul_pow2 by lia.
  change (2 ^ 8) with 256.
  assert (Hq : (lo + 256 * hi) / 256 = hi).
  { symmetry. apply (Z.div_unique _ 256 hi lo); lia. }
  rewrite Hq.
  assert (Hd : Z.land ((lo + 256 * hi) * 256) hi = 0).
  { apply Z.bits_inj'. intros i Hi. rewrite Z.land_spec, Z.bits_0.
    destruct (Z_lt_le_dec i 8) as [Hlt|Hge].
    - change 256 with (2 ^ 8) at 2. rewrite Z.mul_pow2_bits_low by lia.
      reflexivity.
    - destruct (Z.eq_dec hi 0) as [->|Hnz];
        [rewrite Z.bits_0; apply andb_false_r|].
      rewrite (Z.bits_above_log2 hi i); [apply andb_false_r | lia |].
      apply Z.lt_le_trans with 8; [|exact Hge].
      apply Z.log2_lt_pow2; [lia|]. change (2 ^ 8) with 256. lia. }
  rewrite <- Z.lxor_lor, <- Z.add_nocarry_lxor by exact Hd.
  replace ((lo + 256 * hi) * 256 + hi) with (hi + 256 * lo + hi * 65536) by lia.
  rewrite Z.mod_add by lia. apply Z.mod_small. lia.
Qed.

Lemma word_bytes x :
  word x -> x = x mod 256 + 256 * (x / 256) /\
            0 <= x mod 256 < 256 /\ 0 <= x / 256 < 256.
Proof.
  unfold word. intros Hx. pose proof (Z.div_mod x 256 ltac:(lia)) as Hd.
  pose proof (Z.mod_pos_bound x 256 ltac:(lia)) as Hm.
  split; [lia|]. split; [exact Hm|]. split.
  - apply Z.div_pos; lia.
  - apply Z.div_lt_upper_bound; lia.
Qed.

End Swap.

(** [X20] [swap16] exchanges the two bytes of a 16-bit word, and so is its
    own inverse. *)
Theorem swap16_involutive (x : Z) :
  word x ->
  swap16 x = x / 256 + 256 * (x mod 256) /\ swap16 (swap16 x) = x.
Proof.
  intros Hx. destruct (word_bytes x Hx) as (Hd & Hlo & Hhi).
  assert (H1 : swap16 x = x / 256 + 256 * (x mod 256)).
  { rewrite Hd at 1. apply swap16_bytes; assumption. }
  split; [exact H1|].
  rewrite H1, swap16_bytes by assumption. lia.
Qed.

Lemma swap16_involutive_witness :
  swap16 0x1234 = 0x1234 / 256 + 256 * (0x1234 mod 256) /\
  swap16 (swap16 0x1234) = 0x1234.
Proof. apply (swap16_involutive 0x1234). unfold word. lia. Defined.

(** * The image loader *)

Section Loader.

Lemma with_memory_id s : with_memory (memory s) s = s.
Proof. destruct s. reflexivity. Qed.

Lemma pair_ind (P : list Z -> Prop) :
  P [] -> (forall b, P [b]) ->
  (forall b0 b1 l, P l -> P (b0 :: b1 :: l)) ->
  forall l, P l.
Proof.
  intros H0 H1 H2 l.
  assert (H : P l /\ forall b, P (b :: l)).
  { induction l as [|a l [IH1 IH2]]; [split; auto|].
    split; [apply IH2|]. intros b. apply H2, IH1. }
  apply H.
Qed.

Lemma map_take_words (f : Z -> Z) n l : map f (take n l) = take n (map f l).
Proof.
  revert l. induction n as [|n IH]; intros [|x l]; simpl; try reflexivity.
  rewrite IH. reflexivity.
Qed.

Lemma swap_le_words bytes :
  forallb byteb bytes = true -> map swap16 (le_words bytes) = be_words bytes.
Proof.
  induction bytes as [|b|b0 b1 l IH] using pair_ind; intros Hb;
    try reflexivity.
  simpl in Hb. apply andb_true_iff in Hb as [H0 Hb].
  apply andb_true_iff in Hb as [H1 Hb].
  unfold byteb in H0, H1. simpl. rewrite IH by exact Hb. f_equal.
  rewrite swap16_bytes by lia. lia.
Qed.

Lemma length_le_be bytes : length (le_words bytes) = length (be_words bytes).
Proof.
  induction bytes as [|b|b0 b1 l IH] using pair_ind; try reflexivity.
  simpl. rewrite IH. reflexivity.
Qed.

Lemma odd_byte_even bytes :
  Nat.even (length bytes) = true -> odd_byte bytes = None.
Proof.
  induction bytes as [|b|b0 b1 l IH] using pair_ind; intros He;
    [reflexivity | discriminate | exact (IH He)].
Qed.

Lemma odd_byte_byteb bytes b :
  forallb byteb bytes = true -> odd_byte bytes = Some b -> byteb b = true.
Proof.
  induction bytes as [|b'|b0 b1 l IH] using pair_ind; intros Hb Ho.
  - discriminate.
  - injection Ho as <-. simpl in Hb. apply andb_true_iff in Hb. tauto.
  - apply IH; [|exact Ho]. simpl in Hb.
    apply andb_true_iff in Hb as [_ Hb].
    apply andb_true_iff in Hb as [_ Hb]. exact Hb.
Qed.

Lemma partial_store_0 p file mem : partial_store p 0 file mem = mem.
Proof. unfold partial_store. destruct (odd_byte file); reflexivity. Qed.

Lemma length_partial_store p n file mem :
  length (partial_store p n file mem) = length mem.
Proof.
  unfold partial_store. destruct (odd_byte file); [|reflexivity].
  destruct (_ <? _)%nat; [apply length_insert | reflexivity].
Qed.

Lemma partial_store_cons p n b0 b1 rest w mem :
  partial_store (S p) n rest (<[p := w]> mem)
  = <[p := w]> (partial_store p (S n) (b0 :: b1 :: rest) mem).
Proof.
  unfold partial_store. cbn [odd_byte le_words length].
  change (S (length (le_words rest)) <? S n)%nat
    with (length (le_words rest) <? n)%nat.
  destruct (odd_byte rest) as [b|]; [|reflexivity].
  destruct (_ <? _)%nat; [|reflexivity].
  replace (p + S (length (le_words rest)))%nat
    with (S p + length (le_words rest))%nat by lia.
  rewrite list_lookup_total_insert_ne by lia.
  apply list_insert_insert_ne. lia.
Qed.

Lemma fread_eq n : forall p file s,
  0 <= p -> p + Z.of_nat n <= MEMORY_MAX ->
  Z.of_nat (length (memory s)) = MEMORY_MAX ->
  fread p n file s
  = Some (length (take n (le_words file)),
          with_memory (list_inserts (Z.to_nat p) (take n (le_words file))
                         (partial_store (Z.to_nat p) n file (memory s))) s).
Proof.
  induction n as [|n IH]; intros p file s Hp Hfit Hlen.
  - simpl. rewrite partial_store_0, with_memory_id. reflexivity.
  - destruct file as [|b0 [|b1 rest]].
    + unfold partial_store. simpl. rewrite with_memory_id. reflexivity.
    + cbn [fread].
      assert (Hl : load p s = Some (memory s !!! Z.to_nat p)).
      { unfold load. destruct (Z.ltb_spec p MEMORY_MAX); [|lia].
        apply list_lookup_lookup_total_lt. lia. }
      rewrite Hl. cbn [mbind option_bind]. rewrite store_Some by lia.
      cbn [mbind option_bind le_words take length list_inserts].
      unfold partial_store. cbn [odd_byte le_words length].
      change (0 <? S n)%nat with true. cbv iota.
      rewrite Nat.add_0_r. reflexivity.
    + cbn [fread]. rewrite store_Some by lia. cbn [mbind option_bind].
      rewrite (IH (p + 1) rest (poke p (b0 + 256 * b1) s))
        by (rewrite ?length_poke; lia).
      cbn [mbind option_bind le_words take length]. do 2 f_equal.
      unfold with_memory, poke. simpl memory. f_equal.
      replace (Z.to_nat (p + 1)) with (S (Z.to_nat p)) by lia.
      rewrite (partial_store_cons _ _ b0 b1).
      cbn [list_inserts]. symmetry. apply list_insert_inserts_lt. lia.
Qed.

Lemma swap_loop_eq ws : forall p mem s,
  0 <= p -> p + Z.of_nat (length ws) <= MEMORY_MAX ->
  Z.of_nat (length mem) = MEMORY_MAX ->
  swap_loop (length ws) p (with_memory (list_inserts (Z.to_nat p) ws mem) s)
  = Some (with_memory (list_inserts (Z.to_nat p) (map swap16 ws) mem) s).
Proof.
  induction ws as [|w ws IH]; intros p mem s Hp Hfit Hlen; [reflexivity|].
  simpl length in *. cbn [swap_loop].
  assert (Hl : load p (with_memory (list_inserts (Z.to_nat p) (w :: ws) mem) s)
               = Some w).
  { unfold load. destruct (Z.ltb_spec p MEMORY_MAX); [|lia]. simpl.
    apply list_lookup_insert_eq. rewrite length_inserts. lia. }
  rewrite Hl. cbn [mbind option_bind]. rewrite store_Some by lia.
  cbn [mbind option_bind].
  assert (He : poke p (swap16 w)
                 (with_memory (list_inserts (Z.to_nat p) (w :: ws) mem) s)
               = with_memory
                   (list_inserts (Z.to_nat (p + 1)) ws
                      (<[Z.to_nat p := swap16 w]> mem)) s).
  { unfold poke, with_memory. simpl. f_equal.
    rewrite list_insert_insert_eq.
    replace (Z.to_nat (p + 1)) with (S (Z.to_nat p)) by lia.
    apply list_insert_inserts_lt. lia. }
  rewrite He, IH by (rewrite ?length_insert; lia).
  f_equal. unfold with_memory. f_equal. simpl.
  replace (Z.to_nat (p + 1)) with (S (Z.to_nat p)) by lia.
  symmetry. apply list_insert_inserts_lt. lia.
Qed.

Lemma origin_range_bytes file :
  forallb byteb file = true -> 0 <= image_origin file < 65536.
Proof.
  intros Hb. destruct file as [|hi [|lo rest]]; simpl; try lia.
  simpl in Hb. apply andb_true_iff in Hb as [H0 Hb].
  apply andb_true_iff in Hb as [H1 _]. unfold byteb in *. lia.
Qed.

Lemma valid_image_bytes file :
  valid_image file = true -> forallb byteb file = true.
Proof. unfold valid_image. intros H. apply andb_true_iff in H. tauto. Qed.

Lemma origin_range file :
  valid_image file = true -> 0 <= image_origin file < 65536.
Proof. intros Hv. apply origin_range_bytes, valid_image_bytes, Hv. Qed.

Lemma length_loaded_words_bytes file :
  forallb byteb file = true ->
  image_origin file + Z.of_nat (length (loaded_words file)) <= MEMORY_MAX.
Proof.
  intros Hb. pose proof (origin_range_bytes _ Hb) as Ho.
  unfold loaded_words.
  rewrite length_take. unfold MEMORY_MAX, UINT16_MAX in *. lia.
Qed.

Lemma length_loaded_words file :
  valid_image file = true ->
  image_origin file + Z.of_nat (length (loaded_words file)) <= MEMORY_MAX.
Proof. intros Hv. apply length_loaded_words_bytes, valid_image_bytes, Hv. Qed.

(** The loader in one equation, for a file with an origin: the words that
    fit are placed from the origin on, in the byte order of the file, on
    top of what [fread] does with half a word at the end. *)
Lemma read_image_file_raw hi lo body s :
  forallb byteb (hi :: lo :: body) = true ->
  Z.of_nat (length (memory s)) = MEMORY_MAX ->
  read_image_file (hi :: lo :: body) s
  = Some (with_memory
            (list_inserts (Z.to_nat (256 * hi + lo))
               (take (Z.to_nat (MEMORY_MAX - (256 * hi + lo))) (be_words body))
               (partial_store (Z.to_nat (256 * hi + lo))
                  (Z.to_nat (MEMORY_MAX - (256 * hi + lo))) body (memory s)))
            s).
Proof.
  intros Hb Hlen. simpl in Hb. apply andb_true_iff in Hb as [H0 Hb].
  apply andb_true_iff in Hb as [H1 Hb]. unfold byteb in H0, H1.
  unfold read_image_file. rewrite swap16_bytes by lia.
  replace (lo + 256 * hi) with (256 * hi + lo) by lia.
  rewrite (u16_id (MEMORY_MAX - (256 * hi + lo)))
    by (unfold word, MEMORY_MAX, UINT16_MAX; lia).
  rewrite fread_eq by (unfold MEMORY_MAX, UINT16_MAX in *; lia).
  cbn [mbind option_bind]. rewrite swap_loop_eq.
  - rewrite map_take_words, swap_le_words by exact Hb. reflexivity.
  - lia.
  - rewrite length_take. unfold MEMORY_MAX, UINT16_MAX in *. lia.
  - rewrite length_partial_store. exact Hlen.
Qed.

(** For an image of whole words nothing else is stored. *)
Lemma read_image_file_eq file s :
  valid_image file = true -> wf_machine s = true ->
  read_image_file file s
  = Some (with_memory
            (list_inserts (Z.to_nat (image_origin file)) (loaded_words file)
               (memory s)) s).
Proof.
  intros Hvalid Hwf. pose proof (valid_image_bytes _ Hvalid) as Hb.
  unfold valid_image in Hvalid.
  apply andb_true_iff in Hvalid as [Hv _].
  apply andb_true_iff in Hv as [Hl2 Hev].
  destruct file as [|hi [|lo body]]; try discriminate.
  rewrite (read_image_file_raw _ _ _ _ Hb (wf_memory_length _ Hwf)).
  unfold partial_store. rewrite (odd_byte_even body Hev). reflexivity.
Qed.

End Loader.

Lemma be_words_word bytes :
  forallb byteb bytes = true -> Forall word (be_words bytes).
Proof.
  induction bytes as [|b|b0 b1 l IH] using pair_ind; intros Hb;
    try (simpl; constructor).
  - simpl in Hb. apply andb_true_iff in Hb as [H0 Hb].
    apply andb_true_iff in Hb as [H1 Hb]. unfold byteb, word in *. lia.
  - apply IH. simpl in Hb. apply andb_true_iff in Hb as [_ Hb].
    apply andb_true_iff in Hb as [_ Hb]. exact Hb.
Qed.

Lemma loaded_words_word file :
  valid_image file = true -> Forall word (loaded_words file).
Proof.
  intros Hv. unfold loaded_words. apply Forall_take, be_words_word.
  unfold valid_image in Hv. apply andb_true_iff in Hv as [_ Hb].
  destruct file as [|b0 [|b1 rest]]; try reflexivity.
  simpl in Hb. apply andb_true_iff in Hb as [_ Hb].
  apply andb_true_iff in Hb as [_ Hb]. exact Hb.
Qed.

(** [X21] The loader places the image where the file says, in the file's
    byte order: the first two bytes, high byte first, are the origin, and
    the [i]-th following pair of bytes, high byte first, is the word at
    address origin + [i], for every word that fits below the end of the
    array. *)
Theorem image_words_placed (file : list Z) (s : machine) (i : nat) (w : Z) :
  wf_machine s = true ->
  valid_image file = true ->
  loaded_words file !! i = Some w ->
  exists s',
    read_image_file file s = Some s' /\
    load (image_origin file + Z.of_nat i) s' = Some w.
Proof.
  intros Hwf Hv Hi. rewrite (read_image_file_eq _ _ Hv Hwf).
  eexists. split; [reflexivity|].
  pose proof (origin_range _ Hv) as Ho.
  pose proof (length_loaded_words _ Hv) as Hfit.
  pose proof (wf_memory_length _ Hwf) as Hlen.
  pose proof (lookup_lt_Some _ _ _ Hi) as Hlt.
  unfold load. destruct (Z.ltb_spec (image_origin file + Z.of_nat i) MEMORY_MAX);
    [|lia].
  simpl. rewrite list_lookup_inserts by lia.
  replace (Z.to_nat (image_origin file + Z.of_nat i)
           - Z.to_nat (image_origin file))%nat with i by lia.
  exact Hi.
Qed.

Lemma image_words_placed_witness :
  exists s',
    read_image_file image_example blank = Some s' /\
    load (image_origin image_example + Z.of_nat 1) s' = Some 0xF025.
Proof.
  apply (image_words_placed image_example blank 1 0xF025);
    vm_compute; reflexivity.
Defined.

Section LoaderFrame.

Lemma be_words_drop_word file :
  forallb byteb file = true -> Forall word (loaded_words file).
Proof.
  intros Hb. unfold loaded_words. apply Forall_take, be_words_word.
  destruct file as [|b0 [|b1 rest]]; try reflexivity.
  simpl in Hb. apply andb_true_iff in Hb as [_ Hb].
  apply andb_true_iff in Hb as [_ Hb]. exact Hb.
Qed.

Lemma word_low_byte_replaced b v :
  byteb b = true -> word v -> word (b + 256 * (v / 256)).
Proof.
  unfold byteb, word. intros Hb Hv.
  assert (0 <= v / 256 < 256).
  { split; [apply Z.div_pos; lia | apply Z.div_lt_upper_bound; lia]. }
  lia.
Qed.

Lemma lookup_total_word (mem : list Z) i :
  Forall word mem -> (i < length mem)%nat -> word (mem !!! i).
Proof.
  intros Hall Hi. apply (Forall_lookup_1 _ _ i _ Hall).
  apply list_lookup_lookup_total_lt. exact Hi.
Qed.

(** The two things [partial_store] can be. *)
Lemma partial_store_cases p n body mem :
  (partial_store p n body mem = mem /\
   (odd_byte body = None \/ (n <= length (le_words body))%nat)) \/
  (exists b, odd_byte body = Some b /\ (length (le_words body) < n)%nat /\
     partial_store p n body mem
     = <[(p + length (le_words body))%nat :=
           b + 256 * (mem !!! (p + length (le_words body))%nat / 256)]> mem).
Proof.
  unfold partial_store. destruct (odd_byte body) as [b|]; [|left; auto].
  destruct (Nat.ltb_spec (length (le_words body)) n).
  - right. exists b. auto.
  - left. auto.
Qed.

End LoaderFrame.

(** [X22] The loader has a result for every file of bytes, and stays inside
    the array and inside the image.  From a file with fewer than two bytes
    nothing is stored.  Otherwise the whole words that fit below the end of
    the array are placed from the origin on (what does not fit is dropped,
    nothing wraps round to address 0); when the file ends in half a word and
    there is room, its byte replaces the low byte of the next word; every
    other word keeps its value; the registers and the terminal are not
    touched; and the arrays stay well formed. *)
Theorem image_load_frame (file : list Z) (s : machine) :
  wf_machine s = true ->
  forallb byteb file = true ->
  exists s', read_image_file file s = Some s' /\ image_loaded file s s'.
Proof.
  intros Hwf Hb. pose proof (wf_memory_length _ Hwf) as Hlen.
  pose proof (origin_range_bytes _ Hb) as Ho.
  pose proof (length_loaded_words_bytes _ Hb) as Hfit.
  pose proof (be_words_drop_word _ Hb) as Hww.
  assert (Hshort : forall f, drop 2 f = [] -> image_origin f = 0 ->
            read_image_file f s = Some s -> 
            exists s', read_image_file f s = Some s' /\ image_loaded f s s').
  { intros f Hd Hor Hrd. exists s. split; [exact Hrd|].
    unfold image_loaded, touched_words, image_partial, loaded_words.
    rewrite Hd, Hor. cbn [be_words odd_byte length].
    rewrite take_nil. cbn [length].
    destruct (_ <? _)%nat; cbn [Nat.add];
      (split; [exact Hwf|]; split; [reflexivity|]; split; [reflexivity|];
       split; [unfold MEMORY_MAX, UINT16_MAX; lia|];
       split; [intros i w Hi; discriminate|];
       split; [intros b old Hp; discriminate|];
       intros a _ _; reflexivity). }
  destruct file as [|hi [|lo body]];
    [apply Hshort; reflexivity | apply Hshort; reflexivity |].
  clear Hshort.
  rewrite (read_image_file_raw _ _ _ _ Hb Hlen). eexists.
  split; [reflexivity|].
  assert (Hbody : forallb byteb body = true).
  { simpl in Hb. apply andb_true_iff in Hb as [_ Hb].
    apply andb_true_iff in Hb as [_ Hb]. exact Hb. }
  apply wf_machine_spec in Hwf as (Hm & Hmw & Hr & Hrw).
  unfold image_loaded, touched_words, image_partial, loaded_words in *.
  cbn [image_origin drop] in *. change (drop 0 body) with body in *.
  set (o := 256 * hi + lo) in *.
  set (n := Z.to_nat (MEMORY_MAX - o)) in *.
  rewrite <- (length_le_be body).
  set (len := length (le_words body)).
  assert (Hon : Z.of_nat n = MEMORY_MAX - o)
    by (unfold n, MEMORY_MAX, UINT16_MAX in *; lia).
  assert (HW : length (take n (be_words body)) = Nat.min n len)
    by (rewrite length_take, <- length_le_be; reflexivity).
  rewrite HW in *.
  destruct (partial_store_cases (Z.to_nat o) n body (memory s))
    as [[HM Hno]|(b & Hob & Hlt & HM)]; fold len in Hno || fold len in Hlt, HM;
    rewrite HM.
  - (* no half word stored *)
    assert (Hip : (if (len <? n)%nat then odd_byte body else None) = None).
    { destruct (Nat.ltb_spec len n); [|reflexivity].
      destruct Hno as [Hno|Hno]; [exact Hno | lia]. }
    rewrite Hip. rewrite Nat.add_0_r.
    split.
    { apply wf_machine_spec. simpl. rewrite length_inserts.
      repeat split; try assumption. apply Forall_inserts; assumption. }
    split; [reflexivity|]. split; [reflexivity|]. split; [lia|].
    split.
    { intros i w Hi. pose proof (lookup_lt_Some _ _ _ Hi) as Hil.
      rewrite HW in Hil. unfold load.
      destruct (Z.ltb_spec (o + Z.of_nat i) MEMORY_MAX); [|lia].
      simpl. rewrite list_lookup_inserts by lia.
      replace (Z.to_nat (o + Z.of_nat i) - Z.to_nat o)%nat with i by lia.
      exact Hi. }
    split; [intros b old Hp; discriminate|].
    intros a Ha Hout. unfold load. destruct (a <? MEMORY_MAX); [|reflexivity].
    simpl. destruct Hout as [Hl|Hg].
    + apply list_lookup_inserts_lt. lia.
    + apply list_lookup_inserts_ge. lia.
  - (* half a word stored behind the whole words *)
    assert (Hip : (if (len <? n)%nat then odd_byte body else None) = Some b).
    { destruct (Nat.ltb_spec len n); [exact Hob | lia]. }
    rewrite Hip.
    assert (Hmin : Nat.min n len = len) by lia. rewrite Hmin in *.
    assert (Hidx : (Z.to_nat o + len < length (memory s))%nat) by lia.
    split.
    { apply wf_machine_spec. simpl. rewrite length_inserts, length_insert.
      repeat split; try assumption.
      apply Forall_inserts; [|assumption].
      apply Forall_insert; [exact Hmw|].
      apply word_low_byte_replaced;
        [exact (odd_byte_byteb _ _ Hbody Hob)|].
      apply lookup_total_word; assumption. }
    split; [reflexivity|]. split; [reflexivity|]. split; [lia|].
    split.
    { intros i w Hi. pose proof (lookup_lt_Some _ _ _ Hi) as Hil.
      rewrite HW in Hil. unfold load.
      destruct (Z.ltb_spec (o + Z.of_nat i) MEMORY_MAX); [|lia].
      simpl. rewrite list_lookup_inserts by (rewrite ?length_insert; lia).
      replace (Z.to_nat (o + Z.of_nat i) - Z.to_nat o)%nat with i by lia.
      exact Hi. }
    split.
    { intros b' old [= <-]. unfold load.
      destruct (Z.ltb_spec (o + Z.of_nat len) MEMORY_MAX); [|lia].
      simpl. intros Hold.
      rewrite list_lookup_inserts_ge by lia.
      replace (Z.to_nat (o + Z.of_nat len)) with (Z.to_nat o + len)%nat by lia.
      rewrite list_lookup_insert_eq by exact Hidx.
      replace (Z.to_nat (o + Z.of_nat len)) with (Z.to_nat o + len)%nat
        in Hold by lia.
      rewrite (list_lookup_total_correct _ _ _ Hold). reflexivity. }
    intros a Ha Hout. unfold load. destruct (a <? MEMORY_MAX); [|reflexivity].
    simpl. destruct Hout as [Hl|Hg].
    + rewrite list_lookup_inserts_lt by lia.
      apply list_lookup_insert_ne. lia.
    + rewrite list_lookup_inserts_ge by lia.
      apply list_lookup_insert_ne. lia.
Qed.

(** The file of [odd_image_example]: one whole word goes to 0x3000 and the
    byte 0xF0 into the low byte of the word at 0x3001. *)
Lemma image_load_frame_witness :
  exists s',
    read_image_file odd_image_example blank = Some s' /\
    image_loaded odd_image_example blank s'.
Proof.
  apply (image_load_frame odd_image_example blank); vm_compute; reflexivity.
Defined.

Example odd_image_loaded :
  image_origin odd_image_example = 0x3000 /\
  loaded_words odd_image_example = [0xE002] /\
  image_partial odd_image_example = Some 0xF0 /\
  (s' ← read_image_file odd_image_example blank; load 0x3000 s') = Some 0xE002 /\
  (s' ← read_image_file odd_image_example blank; load 0x3001 s') = Some 0x00F0 /\
  (s' ← read_image_file [0x30] blank; load 0x3000 s') = Some 0 /\
  (s' ← read_image_file [] blank; load 0x3000 s') = Some 0.
Proof. repeat split; vm_compute; reflexivity. Qed.

(** * [main] *)

Section Main.

Variable fs : string -> option (list Z).
Variable fuel : nat.





End Main.



(** [main] on the image of [image_example] (LEA R0, #2; TRAP HALT) ends with
    status 0; on a name that is no file, with status 1, also behind an image
    that ends in half a word or is empty of words; without a name, with
    status 2. *)
Example main_runs :
  (fun t => match t with Exit status _ => Some status | _ => None end)
    <$> main fs_example ["lc3sim"; "a.obj"]%string 5 (with_io (Console [] [] []) zeroed)
  = Some (Some 0) /\
  (fun t => match t with Exit status _ => Some status | _ => None end)
    <$> main fs_example ["lc3sim"; "b.obj"]%string 5 (with_io (Console [] [] []) zeroed)
  = Some (Some 1) /\
  (fun t => match t with Exit status _ => Some status | _ => None end)
    <$> main fs_example ["lc3sim"; "odd.obj"; "b.obj"]%string 5 (with_io (Console [] [] []) zeroed)
  = Some (Some 1) /\
  (fun t => match t with Exit status _ => Some status | _ => None end)
    <$> main fs_example ["lc3sim"]%string 5 (with_io (Console [] [] []) zeroed)
  = Some (Some 2).
Proof. repeat split; vm_compute; reflexivity. Qed.

(** * Operand modes and double indirection *)

(** [X23] The two operand modes of ADD and of AND agree: an instruction in
    immediate mode and one in register mode with the same destination and
    first source leave the same machine state when the second source
    register holds the sign-extended immediate. *)
Theorem alu_modes_agree (s : machine) (i_imm i_reg : Z) :
  Z.land (Z.shiftr i_imm 5) 0x1 <> 0 ->
  Z.land (Z.shiftr i_reg 5) 0x1 = 0 ->
  Z.land (Z.shiftr i_reg 9) 0x7 = Z.land (Z.shiftr i_imm 9) 0x7 ->
  Z.land (Z.shiftr i_reg 6) 0x7 = Z.land (Z.shiftr i_imm 6) 0x7 ->
  reg s (Z.land i_reg 0x7) = sign_extend (Z.land i_imm 0x1f) 5 ->
  cmd_add i_imm s = cmd_add i_reg s /\ cmd_and i_imm s = cmd_and i_reg s.
Proof.
  intros Himm Hreg Hdr Hsr Hval. apply truthy_true in Himm.
  unfold cmd_add, cmd_and. rewrite Himm, Hreg, Hdr, Hsr, Hval.
  change (truthy 0) with false. split; reflexivity.
Qed.

(** ADD R0, R1, #-1 against ADD R0, R1, R2 with 0xFFFF in R2. *)
Lemma alu_modes_agree_witness :
  cmd_add 0x107F (set_reg R_R2 0xFFFF blank)
  = cmd_add 0x1042 (set_reg R_R2 0xFFFF blank)
  /\ cmd_and 0x107F (set_reg R_R2 0xFFFF blank)
     = cmd_and 0x1042 (set_reg R_R2 0xFFFF blank).
Proof.
  apply (alu_modes_agree (set_reg R_R2 0xFFFF blank) 0x107F 0x1042).
  - vm_compute. discriminate.
  - vm_compute. reflexivity.
  - vm_compute. reflexivity.
  - vm_compute. reflexivity.
  - vm_compute. reflexivity.
Defined.

Section Indirection.

Lemma kbsr_poll_with_registers r s :
  kbsr_poll (with_registers r s) = with_registers r (kbsr_poll s).
Proof.
  unfold kbsr_poll. rewrite !check_key_eq. cbn [fst snd].
  change (io (with_registers r s)) with (io s).
  destruct (hd false (polls (io s))); [|reflexivity].
  rewrite !getchar_eq. reflexivity.
Qed.

Lemma mem_read_with_registers a r s :
  mem_read a (with_registers r s)
  = match mem_read a s with
    | Some (v, s') => Some (v, with_registers r s')
    | None => None
    end.
Proof.
  destruct (Z.eq_dec a MR_KBSR) as [->|Hne].
  - rewrite !mem_read_kbsr, kbsr_poll_with_registers.
    change (load MR_KBSR (with_registers r (kbsr_poll s)))
      with (load MR_KBSR (kbsr_poll s)).
    destruct (load MR_KBSR (kbsr_poll s)); reflexivity.
  - rewrite !mem_read_plain by exact Hne.
    change (load a (with_registers r s)) with (load a s).
    destruct (load a s); reflexivity.
Qed.

(** Writing a result over an earlier result in the same register. *)
Lemma result_over_result dr a v s :
  0 <= dr < 8 -> length (registers s) = 10%nat ->
  update_flags dr (set_reg dr v (update_flags dr (set_reg dr a s)))
  = update_flags dr (set_reg dr v s).
Proof.
  intros Hdr Hlen.
  destruct (update_flags_set dr (set_reg dr a s)) as (fa & _ & ->).
  assert (Hv : forall t, length (registers t) = 10%nat ->
                 reg (set_reg dr v t) dr = v).
  { intros t Ht. apply reg_set_reg; [unfold R_COUNT; lia | exact Ht]. }
  unfold update_flags. rewrite !Hv by (rewrite ?length_set_reg; exact Hlen).
  assert (He : forall f,
    set_reg R_COND f (set_reg dr v (set_reg R_COND fa (set_reg dr a s)))
    = set_reg R_COND f (set_reg dr v s)).
  { intros f. unfold set_reg, with_registers. simpl. f_equal.
    rewrite (list_insert_insert_ne _ (Z.to_nat dr) (Z.to_nat R_COND))
      by (unfold R_COND; lia).
    rewrite !list_insert_insert_eq. reflexivity. }
  destruct (v =? 0); [apply He|]. destruct (truthy _); apply He.
Qed.

End Indirection.

(** [X24] LDI is LD followed by LDR through the loaded address: LDI dr, off
    leaves the same machine state as LD dr, off and then LDR dr, dr, #0,
    memory-mapped reads and out-of-range reads included. *)
Theorem ldi_is_ld_then_ldr (s : machine) (i j : Z) :
  wf_machine s = true ->
  Z.land (Z.shiftr j 9) 0x7 = Z.land (Z.shiftr i 9) 0x7 ->
  Z.land (Z.shiftr j 6) 0x7 = Z.land (Z.shiftr i 9) 0x7 ->
  Z.land j 0x3f = 0 ->
  cmd_ldi i s = (s1 ← cmd_ld i s; cmd_ldr j s1).
Proof.
  intros Hwf Hdr Hbase Hoff. unfold cmd_ldi, cmd_ld, cmd_ldr.
  rewrite Hdr, Hbase, Hoff.
  set (dr := Z.land (Z.shiftr i 9) 0x7).
  assert (Hd : 0 <= dr < 8) by apply field3.
  destruct (mem_read _ s) as [[a s2]|] eqn:Hr; [|reflexivity].
  cbn [mbind option_bind].
  destruct (mem_read_inv _ _ _ _ Hwf Hr) as (_ & Hwf2 & Ha).
  pose proof (wf_registers_length _ Hwf2) as Hlen.
  destruct (result_value dr a s2 Hd Ha Hlen) as [Hv _]. rewrite Hv.
  change (sign_extend 0 6) with 0. rewrite Z.add_0_r, (u16_id a Ha).
  destruct (update_flags_set dr (set_reg dr a s2)) as (fa & _ & Hu).
  rewrite Hu at 1.
  change (set_reg R_COND fa (set_reg dr a s2))
    with (with_registers
            (<[Z.to_nat R_COND := fa]> (<[Z.to_nat dr := a]> (registers s2)))
            s2).
  rewrite mem_read_with_registers.
  destruct (mem_read a s2) as [[v s3]|] eqn:Hr2; [|reflexivity].
  cbn [mbind option_bind]. f_equal.
  pose proof (registers_mem_read _ _ _ _ Hr2) as Hregs.
  assert (Hs3 : with_registers
                  (<[Z.to_nat R_COND := fa]>
                     (<[Z.to_nat dr := a]> (registers s2))) s3
                = update_flags dr (set_reg dr a s3)).
  { destruct (update_flags_set dr (set_reg dr a s3)) as (fb & _ & Hub).
    assert (fb = fa).
    { assert (H1 : reg (update_flags dr (set_reg dr a s3)) R_COND
                   = reg (update_flags dr (set_reg dr a s2)) R_COND).
      { rewrite !update_flags_value; rewrite ?length_set_reg, ?Hregs; auto;
          rewrite !reg_set_reg; rewrite ?Hregs; auto; unfold R_COUNT; lia. }
      rewrite Hub, Hu in H1.
      rewrite !reg_set_reg in H1;
        rewrite ?length_set_reg, ?Hregs; auto; unfold R_COND, R_COUNT; lia. }
    subst fb. rewrite Hub. unfold set_reg, with_registers. simpl.
    rewrite Hregs. reflexivity. }
  rewrite Hs3. symmetry. apply result_over_result; [exact Hd|].
  rewrite Hregs. exact Hlen.
Qed.

(** LDI R0, #1 against LD R0, #1 and LDR R0, R0, #0. *)
Lemma ldi_is_ld_then_ldr_witness :
  cmd_ldi 0xA001 blank = (s1 ← cmd_ld 0xA001 blank; cmd_ldr 0x6000 s1).
Proof.
  apply (ldi_is_ld_then_ldr blank 0xA001 0x6000); vm_compute; reflexivity.
Defined.
